(** * Bond Liquidity Heatmap: metrics engine and grid aggregation

    A shallow embedding of [src/compute_metrics.py] (the per-instrument
    depth-score pipeline) and of the aggregation part of [main.py]
    ([load_metrics] and [render] up to the colour classification), with the
    pandas operations they call written out as list functions.

    Numbers.  Finite float64 values are idealised as rationals ([Q]): no
    rounding, no overflow, no signed zero.  What pandas represents by
    special values is kept: a missing value (NaN / NaT) and the two
    infinities that a division by zero produces.  Timestamps are integers
    in nanoseconds since the epoch, as in [datetime64[ns]]. *)

From Stdlib Require Import String Ascii.
From Stdlib Require Import ZArith QArith Qabs Qround List Bool.
From Stdlib Require Import Lia Lqa Sorted Permutation OrderedTypeEx.
Import ListNotations.

Open Scope Q_scope.

(* ===================================================================== *)
(** * Part I: definitions                                                *)
(* ===================================================================== *)

(** ** pandas primitives *)

Module Pandas.

(** A float64 cell: a finite value, NaN, or an infinity. *)
Inductive float : Type :=
| NaN
| NInf
| Fin (q : Q)
| PInf.

Definition Qltb (x y : Q) : bool := negb (Qle_bool y x).

Definition isna (x : float) : bool :=
  match x with NaN => true | _ => false end.

Definition of_option (o : option Q) : float :=
  match o with Some q => Fin q | None => NaN end.

(** [x < y] on cells; any comparison with NaN is false. *)
Definition fltb (x y : float) : bool :=
  match x, y with
  | NaN, _ | _, NaN => false
  | _, NInf => false
  | NInf, _ => true
  | PInf, _ => false
  | Fin _, PInf => true
  | Fin a, Fin b => Qltb a b
  end.

(** Division of cells: [0/0] is NaN, [x/0] an infinity, [inf/inf] NaN. *)
Definition fdiv (x y : float) : float :=
  match x, y with
  | NaN, _ | _, NaN => NaN
  | Fin a, Fin b =>
      if Qeq_bool b 0
      then (if Qeq_bool a 0 then NaN else if Qltb 0 a then PInf else NInf)
      else Fin (a / b)
  | Fin _, _ => Fin 0
  | PInf, Fin b => if Qltb b 0 then NInf else PInf
  | NInf, Fin b => if Qltb b 0 then PInf else NInf
  | _, _ => NaN
  end.

Definition fmul (x y : float) : float :=
  match x, y with
  | NaN, _ | _, NaN => NaN
  | Fin a, Fin b => Fin (a * b)
  | Fin a, PInf | PInf, Fin a =>
      if Qeq_bool a 0 then NaN else if Qltb 0 a then PInf else NInf
  | Fin a, NInf | NInf, Fin a =>
      if Qeq_bool a 0 then NaN else if Qltb 0 a then NInf else PInf
  | PInf, PInf | NInf, NInf => PInf
  | PInf, NInf | NInf, PInf => NInf
  end.

Definition finite_or_nan (x : float) : Prop := x = NaN \/ exists q, x = Fin q.

(** [Series.max()]: NaN cells are skipped; NaN only when nothing is left. *)
Definition max_skipna (acc x : float) : float :=
  match acc, x with
  | NaN, _ => x
  | _, NaN => acc
  | _, _ => if fltb acc x then x else acc
  end.

Definition series_max (s : list float) : float :=
  fold_left max_skipna s NaN.

Definition Qsum (l : list Q) : Q := fold_right Qplus 0 l.

(** The non-null observations of a column. *)
Fixpoint present (l : list (option Q)) : list Q :=
  match l with
  | [] => []
  | Some x :: t => x :: present t
  | None :: t => present t
  end.

(** Rows [max 0 (i - w + 1) .. i] of a column: the trailing window of
    [rolling(w)] at position [i]. *)
Definition window {A : Type} (w i : nat) (col : list A) : list A :=
  skipn (i + 1 - w) (firstn (i + 1) col).

(** [col.rolling(w, min_periods=mp).agg()]: the aggregate of the non-null
    observations of the window, NaN when fewer than [mp] of them. *)
Definition rolling (agg : list Q -> Q) (w mp : nat) (col : list (option Q))
  : list (option Q) :=
  map (fun i =>
         let obs := present (window w i col) in
         if (mp <=? length obs)%nat then Some (agg obs) else None)
      (seq 0 (length col)).

Definition Qmean (obs : list Q) : Q :=
  Qsum obs / inject_Z (Z.of_nat (length obs)).

Definition rolling_sum := rolling Qsum.
Definition rolling_mean := rolling Qmean.

(** [col.diff()]: first row missing, then the difference to the row before. *)
Fixpoint diff_from {A B : Type} (sub : A -> A -> B) (prev : A) (l : list A)
  : list (option B) :=
  match l with
  | [] => []
  | x :: t => Some (sub x prev) :: diff_from sub x t
  end.

Definition diff {A B : Type} (sub : A -> A -> B) (l : list A)
  : list (option B) :=
  match l with
  | [] => []
  | x :: t => None :: diff_from sub x t
  end.

(** [sort_values(key)]: ascending, ties kept in their order. *)
Fixpoint insert_by {A : Type} (leb : A -> A -> bool) (x : A) (l : list A)
  : list A :=
  match l with
  | [] => [x]
  | y :: t => if leb x y then x :: l else y :: insert_by leb x t
  end.

Fixpoint sort_by {A : Type} (leb : A -> A -> bool) (l : list A) : list A :=
  match l with
  | [] => []
  | x :: t => insert_by leb x (sort_by leb t)
  end.

(** [Series.unique()]: distinct values in order of first appearance. *)
Fixpoint unique (l : list string) : list string :=
  match l with
  | [] => []
  | x :: t => x :: filter (fun y => negb (String.eqb y x)) (unique t)
  end.

(** Python exceptions that the modelled code can meet. *)
Inductive exn : Type :=
| IndexError
| Exception (msg : string).

Inductive result (A : Type) : Type :=
| Ok (a : A)
| Raise (e : exn).
Arguments Ok {A} a.
Arguments Raise {A} e.

End Pandas.

Import Pandas.

(** ** [src/compute_metrics.py] *)

Module Metrics.

(** A row of [raw_trade_events]. *)
Record TradeEvent : Type := {
  isin : string;
  rating : string;
  maturity_date : Z;
  trade_ts : Z;
  qty_cr : Q;
  price : Q;
  buyer_cp : string;
  seller_cp : string
}.

(** A row of the frame that [compute_depth_score] returns. *)
Record MetricRecord : Type := {
  m_isin : string;
  m_trade_ts : Z;
  depth_score : float;
  spread : option Q;
  time_since_last : option Q;
  vwap : float;
  volume_15min : option Q;
  m_price : Q;
  m_qty_cr : Q
}.

Definition min_spread : Q := 5 # 10.
Definition min_time : Q := 5 # 10.

Definition ns_per_second : Z := 1000000000.

(** [Timedelta.total_seconds() / 60] *)
Definition minutes_of_ns (d : Z) : Q :=
  inject_Z d / inject_Z ns_per_second / 60.

Definition sort_values_trade_ts (group : list TradeEvent) : list TradeEvent :=
  sort_by (fun a b => (trade_ts a <=? trade_ts b)%Z) group.

Definition col_time_since_last (group : list TradeEvent) : list (option Q) :=
  map (option_map minutes_of_ns) (diff Z.sub (map trade_ts group)).

Definition col_spread_bps (group : list TradeEvent) : list (option Q) :=
  map (option_map (fun d => Qabs d * 10000)) (diff Qminus (map price group)).

Definition col_qty (group : list TradeEvent) : list (option Q) :=
  map (fun t => Some (qty_cr t)) group.

Definition col_price_qty (group : list TradeEvent) : list (option Q) :=
  map (fun t => Some (price t * qty_cr t)) group.

Definition rolling_volume (group : list TradeEvent) : list (option Q) :=
  rolling_sum 10 5 (col_qty group).

Definition rolling_spread (group : list TradeEvent) : list (option Q) :=
  rolling_mean 10 5 (col_spread_bps group).

Definition rolling_time (group : list TradeEvent) : list (option Q) :=
  rolling_mean 10 5 (col_time_since_last group).

(** [(rolling_volume / (rolling_time + min_time)) / (rolling_spread + min_spread)]
    at row [i] of the sorted group. *)
Definition raw_depth_at (group : list TradeEvent) (i : nat) : float :=
  fdiv
    (fdiv (of_option (nth i (rolling_volume group) None))
          (of_option (option_map (fun t => t + min_time)
                                 (nth i (rolling_time group) None))))
    (of_option (option_map (fun s => s + min_spread)
                           (nth i (rolling_spread group) None))).

Definition raw_depth (group : list TradeEvent) : list float :=
  map (raw_depth_at group) (seq 0 (length group)).

(** The normalisation of lines 58-59: only when the maximum is positive. *)
Definition normalize (depth : list float) : list float :=
  let mx := series_max depth in
  if fltb (Fin 0) mx
  then map (fun d => fmul (fdiv d mx) (Fin 100)) depth
  else depth.

Definition col_depth_score (group : list TradeEvent) : list float :=
  normalize (raw_depth group).

Definition col_volume_weighted_price (group : list TradeEvent) : list float :=
  map (fun i =>
         fdiv (of_option (nth i (rolling_sum 5 1 (col_price_qty group)) None))
              (of_option (nth i (rolling_sum 5 1 (col_qty group)) None)))
      (seq 0 (length group)).

Definition col_vwap (group : list TradeEvent) : list float :=
  map (fun i =>
         fdiv (of_option (nth i (rolling_sum 10 1 (col_price_qty group)) None))
              (of_option (nth i (rolling_sum 10 1 (col_qty group)) None)))
      (seq 0 (length group)).

Definition col_volume_15min (group : list TradeEvent) : list (option Q) :=
  rolling_sum 15 1 (col_qty group).

Definition null_trade : TradeEvent :=
  {| isin := ""; rating := ""; maturity_date := 0; trade_ts := 0;
     qty_cr := 0; price := 0; buyer_cp := ""; seller_cp := "" |}.

(** The returned frame, built row by row from the columns of the sorted
    group; [isin0] is [group['isin'].iloc[0]]. *)
Definition row_at (isin0 : string) (group : list TradeEvent) (i : nat)
  : MetricRecord :=
  let t := nth i group null_trade in
  {| m_isin := isin0;
     m_trade_ts := trade_ts t;
     depth_score := nth i (col_depth_score group) NaN;
     spread := nth i (col_spread_bps group) None;
     time_since_last := nth i (col_time_since_last group) None;
     vwap := nth i (col_vwap group) NaN;
     volume_15min := nth i (col_volume_15min group) None;
     m_price := price t;
     m_qty_cr := qty_cr t |}.

Definition frame_of (isin0 : string) (group : list TradeEvent)
  : list MetricRecord :=
  map (row_at isin0 group) (seq 0 (length group)).

(** [compute_depth_score(group)].  [iloc[0]] on an empty group raises
    IndexError; the logging calls are left out. *)
Definition compute_depth_score (group : list TradeEvent)
  : result (list MetricRecord) :=
  match group with
  | [] => Raise IndexError
  | _ :: _ =>
      let group := sort_values_trade_ts group in
      match group with
      | [] => Raise IndexError
      | first :: _ => Ok (frame_of (isin first) group)
      end
  end.

(** [DataFrame.dropna()]: a row goes when any of its cells is null. *)
Definition has_na (r : MetricRecord) : bool :=
  isna (depth_score r)
  || match spread r with None => true | Some _ => false end
  || match time_since_last r with None => true | Some _ => false end
  || isna (vwap r)
  || match volume_15min r with None => true | Some _ => false end.

Definition dropna (df : list MetricRecord) : list MetricRecord :=
  filter (fun r => negb (has_na r)) df.

(** What the per-ISIN loop writes with [logger.error] and [logger.warning]. *)
Inductive LogEntry : Type :=
| LogError (i : string) (e : exn)
| LogWarning (i : string) (n : nat).

Record LoopState : Type := {
  all_metrics : list (list MetricRecord);
  valid_isins : nat;
  log : list LogEntry
}.

Definition init_state : LoopState :=
  {| all_metrics := []; valid_isins := 0; log := [] |}.

Section Loop.

(** The callee of the [try] block.  The loop is written over any callee
    so that the [except] branch can be exercised. *)
Variable compute : list TradeEvent -> result (list MetricRecord).

Definition isin_trades (trades : list TradeEvent) (i : string)
  : list TradeEvent :=
  filter (fun t => String.eqb (isin t) i) trades.

(** One iteration of [for isin in trades['isin'].unique()]. *)
Definition loop_body (trades : list TradeEvent) (st : LoopState) (i : string)
  : LoopState :=
  let g := isin_trades trades i in
  if (5 <? length g)%nat then
    match compute g with
    | Ok metrics =>
        {| all_metrics := all_metrics st ++ [metrics];
           valid_isins := S (valid_isins st);
           log := log st |}
    | Raise e =>
        {| all_metrics := all_metrics st;
           valid_isins := valid_isins st;
           log := log st ++ [LogError i e] |}
    end
  else
    {| all_metrics := all_metrics st;
       valid_isins := valid_isins st;
       log := log st ++ [LogWarning i (length g)] |}.

(** The frames and the log lines that the iteration for [i] appends. *)
Definition frames_at (trades : list TradeEvent) (i : string)
  : list (list MetricRecord) :=
  if (5 <? length (isin_trades trades i))%nat
  then match compute (isin_trades trades i) with
       | Ok metrics => [metrics]
       | Raise _ => []
       end
  else [].

Definition log_at (trades : list TradeEvent) (i : string) : list LogEntry :=
  if (5 <? length (isin_trades trades i))%nat
  then match compute (isin_trades trades i) with
       | Ok _ => []
       | Raise e => [LogError i e]
       end
  else [LogWarning i (length (isin_trades trades i))].

Definition run_loop (trades : list TradeEvent) : LoopState :=
  fold_left (loop_body trades) (unique (map isin trades)) init_state.

(** [if all_metrics: metrics_df = pd.concat(all_metrics).dropna()]; with
    no frame at all the table [trade_metrics] is not written. *)
Definition metrics_df (trades : list TradeEvent)
  : option (list MetricRecord) :=
  match all_metrics (run_loop trades) with
  | [] => None
  | frames => Some (dropna (concat frames))
  end.

(** The MetricRecords that a run emits. *)
Definition emitted (trades : list TradeEvent) : list MetricRecord :=
  match metrics_df trades with
  | Some df => df
  | None => []
  end.

Definition emitted_for (trades : list TradeEvent) (i : string)
  : list MetricRecord :=
  filter (fun r => String.eqb (m_isin r) i) (emitted trades).

End Loop.

(** The batch of [compute_metrics.py]. *)
Definition engine_emitted := emitted compute_depth_score.
Definition engine_emitted_for := emitted_for compute_depth_score.
Definition engine_log (trades : list TradeEvent) : list LogEntry :=
  log (run_loop compute_depth_score trades).

End Metrics.

(** ** [main.py]: [load_metrics] and the aggregation in [render] *)

Module Heatmap.

(** A row of [trade_metrics].  The table is written by the metrics batch
    after [dropna()], so its numeric cells are present. *)
Record Metric : Type := {
  isin : string;
  trade_ts : Z;
  depth_score : Q;
  spread : Q;
  time_since_last : Q;
  vwap : Q;
  volume_15min : Q;
  price : Q;
  qty_cr : Q
}.

(** A row of [trades_meta]:
    [SELECT isin,rating,maturity_date FROM raw_trade_events GROUP BY isin]. *)
Record Meta : Type := {
  meta_isin : string;
  meta_rating : option string;
  meta_maturity_date : option Z
}.

(** A row of the merged frame.  [tenor_years] and [tenor_bucket] are the
    columns that [render] assigns; before the assignment they are absent,
    which is written as a missing cell. *)
Record Row : Type := {
  metric : Metric;
  rating : option string;
  maturity_date : option Z;
  tenor_years : option Q;
  tenor_bucket : option string
}.

(** [metrics.merge(trades_meta, on="isin", how="left")]: every left row
    once per matching right row, in left order; once with missing cells
    when nothing matches. *)
Definition merge_left (metrics : list Metric) (trades_meta : list Meta)
  : list Row :=
  flat_map
    (fun m =>
       match filter (fun x => String.eqb (meta_isin x) (isin m)) trades_meta with
       | [] => [ {| metric := m; rating := None; maturity_date := None;
                    tenor_years := None; tenor_bucket := None |} ]
       | ms => map (fun x =>
                      {| metric := m; rating := meta_rating x;
                         maturity_date := meta_maturity_date x;
                         tenor_years := None; tenor_bucket := None |}) ms
       end)
    metrics.

Definition load_metrics := merge_left.

Definition ns_per_day : Z := 86400 * 1000000000.

(** [(maturity_date - trade_ts).dt.days]: whole days, rounded down. *)
Definition tenor_days (maturity ts : Z) : Z := (maturity - ts) / ns_per_day.

Definition bins : list Q := [0; 1; 3; 5; 10; 100].
Definition labels : list string := ["0-1y"; "1-3y"; "3-5y"; "5-10y"; "10y+"]%string.

(** [pd.cut(x, bins, labels, right=False)]: the label of the interval
    [[lo, hi)] that holds [x], missing when there is none. *)
Fixpoint cut (bins : list Q) (labels : list string) (x : Q) : option string :=
  match bins, labels with
  | lo :: ((hi :: _) as rest), lab :: labs =>
      if Qle_bool lo x && Qltb x hi then Some lab else cut rest labs x
  | _, _ => None
  end.

(** Lines 150-154: the three column assignments. *)
Definition assign_tenor (r : Row) : Row :=
  let years :=
    option_map (fun mat => inject_Z (tenor_days mat (trade_ts (metric r))) / 365)
               (maturity_date r) in
  {| metric := metric r;
     rating := rating r;
     maturity_date := maturity_date r;
     tenor_years := years;
     tenor_bucket := match years with
                     | Some y => cut bins labels y
                     | None => None
                     end |}.

Definition indexed {A : Type} (l : list A) : list (nat * A) :=
  combine (seq 0 (length l)) l.

(** [idxmax()]: the index label of the first occurrence of the maximum. *)
Fixpoint idxmax_from (best : nat * Z) (l : list (nat * Z)) : nat :=
  match l with
  | [] => fst best
  | x :: t =>
      if (snd best <? snd x)%Z then idxmax_from x t else idxmax_from best t
  end.

Definition idxmax (l : list (nat * Z)) : option nat :=
  match l with
  | [] => None
  | x :: t => Some (idxmax_from x t)
  end.

(** The group keys of [groupby('isin')], sorted. *)
Definition isin_keys (metrics : list Row) : list string :=
  sort_by String.leb (unique (map (fun r => isin (metric r)) metrics)).

Definition group_ts (metrics : list Row) (k : string) : list (nat * Z) :=
  map (fun ir => (fst ir, trade_ts (metric (snd ir))))
      (filter (fun ir => String.eqb (isin (metric (snd ir))) k)
              (indexed metrics)).

(** The row that [.loc] fetches for the group of key [k]. *)
Definition latest_of (metrics : list Row) (k : string) : list Row :=
  match idxmax (group_ts metrics k) with
  | Some i => match nth_error metrics i with
              | Some r => [r]
              | None => []
              end
  | None => []
  end.

(** [metrics.loc[metrics.groupby('isin')['trade_ts'].idxmax()]] *)
Definition latest_metrics (metrics : list Row) : list Row :=
  flat_map (latest_of metrics) (isin_keys metrics).

(** [Series.median()] of the present values. *)
Definition median (l : list Q) : option Q :=
  let s := sort_by Qle_bool l in
  let n := length s in
  match n with
  | O => None
  | S _ =>
      if Nat.even n
      then Some ((nth (n / 2 - 1) s 0 + nth (n / 2) s 0) / 2)
      else Some (nth (n / 2) s 0)
  end.

(** [Series.quantile(q)]: linear interpolation between the two order
    statistics around position [q * (n - 1)]. *)
Definition quantile (q : Q) (col : list (option Q)) : option Q :=
  let s := sort_by Qle_bool (present col) in
  match length s with
  | O => None
  | S k =>
      let pos := q * inject_Z (Z.of_nat k) in
      let lo := Z.to_nat (Qfloor pos) in
      let hi := Nat.min (S lo) k in
      let frac := pos - inject_Z (Qfloor pos) in
      Some (nth lo s 0 + (nth hi s 0 - nth lo s 0) * frac)
  end.

Record GridCell : Type := {
  g_rating : string;
  g_tenor_bucket : string;
  depth : option Q;
  g_spread : option Q;
  volume : Q;
  n_trades : nat;
  g_vwap : option Q
}.

Definition opt_eqb (o : option string) (s : string) : bool :=
  match o with Some x => String.eqb x s | None => false end.

(** The rows of one group of [groupby(['rating','tenor_bucket'])]; a row
    with a missing key belongs to no group. *)
Definition members (latest : list Row) (r b : string) : list Row :=
  filter (fun x => opt_eqb (rating x) r && opt_eqb (tenor_bucket x) b) latest.

Fixpoint present_str (l : list (option string)) : list string :=
  match l with
  | [] => []
  | Some x :: t => x :: present_str t
  | None :: t => present_str t
  end.

Definition rating_keys (latest : list Row) : list string :=
  sort_by String.leb (unique (present_str (map rating latest))).

(** The [agg] of one cell: median, median, sum, count, last. *)
Definition aggregate_cell (latest : list Row) (r b : string) : GridCell :=
  let ms := members latest r b in
  {| g_rating := r;
     g_tenor_bucket := b;
     depth := median (map (fun x => depth_score (metric x)) ms);
     g_spread := median (map (fun x => spread (metric x)) ms);
     volume := Qsum (map (fun x => qty_cr (metric x)) ms);
     n_trades := length ms;
     g_vwap := match rev ms with
               | [] => None
               | x :: _ => Some (vwap (metric x))
               end |}.

(** [groupby(['rating','tenor_bucket'], observed=False).agg(...)]: one row
    per rating key and per tenor category, the empty ones included. *)
Definition build_grid (latest : list Row) : list GridCell :=
  flat_map (fun r => map (aggregate_cell latest r) labels) (rating_keys latest).

Definition RED : string := "#e74c3c".
Definition GREEN : string := "#27ae60".
Definition AMBER : string := "#f39c12".

Definition opt_ltb (x y : option Q) : bool :=
  match x, y with Some a, Some b => Qltb a b | _, _ => false end.

Definition opt_leb (x y : option Q) : bool :=
  match x, y with Some a, Some b => Qle_bool a b | _, _ => false end.

Definition opt_isna (x : option Q) : bool :=
  match x with None => true | Some _ => false end.

(** The closure [colour(row)] with its three captured thresholds. *)
Definition colour (p25 p75 median_spread : option Q) (row : GridCell) : string :=
  if opt_isna (depth row)
     || opt_ltb (depth row) p25
     || opt_ltb (option_map (fun m => m * (15 # 10)) median_spread) (g_spread row)
  then RED
  else if opt_leb p75 (depth row) && opt_leb (g_spread row) median_spread
  then GREEN
  else AMBER.

Record Rendered : Type := {
  frame : list Row;
  grid : list GridCell;
  p25 : option Q;
  p75 : option Q;
  median_spread : option Q;
  colours : list string
}.

(** [render()], from the loaded frame to the coloured grid.  [frame] is the
    loaded frame after the column assignments, which are done in place.
    Nothing is built when the frame is empty. *)
Definition render (metrics : list Row) : option Rendered :=
  match metrics with
  | [] => None
  | _ :: _ =>
      let metrics := map assign_tenor metrics in
      let latest := latest_metrics metrics in
      match latest with
      | [] => None
      | _ :: _ =>
          let g := build_grid latest in
          let q75 := quantile (75 # 100) (map depth g) in
          let q25 := quantile (25 # 100) (map depth g) in
          let ms := median (present (map g_spread g)) in
          Some {| frame := metrics;
                  grid := g;
                  p25 := q25;
                  p75 := q75;
                  median_spread := ms;
                  colours := map (colour q25 q75 ms) g |}
      end
  end.



Definition isin_of (x : Row) : string := isin (metric x).

End Heatmap.

(** ** The wording of the specification, for comparison *)

Module SpecWording.

Import Heatmap.

(** The tenor partition as the specification words it, in days:
    [0,365), [366,1095), [1096,1825), [1826,3650), [3650,inf). *)
Definition spec_tenor_bucket (d : Z) : option string :=
  if ((0 <=? d) && (d <? 365))%Z then Some "0-1y"%string
  else if ((366 <=? d) && (d <? 1095))%Z then Some "1-3y"%string
  else if ((1096 <=? d) && (d <? 1825))%Z then Some "3-5y"%string
  else if ((1826 <=? d) && (d <? 3650))%Z then Some "5-10y"%string
  else if (3650 <=? d)%Z then Some "10y+"%string
  else None.

(** "The vwap of the most recent contributor": the vwap of the row of the
    cell with the greatest trade timestamp (the later row among equals). *)
Fixpoint most_recent (ms : list Row) : option Row :=
  match ms with
  | [] => None
  | x :: t =>
      match most_recent t with
      | Some y =>
          if (trade_ts (metric y) <? trade_ts (metric x))%Z
          then Some x else Some y
      | None => Some x
      end
  end.

Definition spec_cell_vwap (ms : list Row) : option Q :=
  option_map (fun x => vwap (metric x)) (most_recent ms).


End SpecWording.

(** ** Sample inputs *)

Module Samples.

Import Metrics.

Definition minute : Z := 60 * ns_per_second.

(** Six trades of one instrument, one minute apart, at a constant price of
    100.0 and a constant quantity of 1,000,000. *)
Definition six_trades (x r : string) (mat t0 : Z) (b sl : string)
  : list TradeEvent :=
  map (fun k =>
         {| isin := x; rating := r; maturity_date := mat;
            trade_ts := t0 + k * minute;
            qty_cr := 1000000; price := 100;
            buyer_cp := b; seller_cp := sl |})
      [0; 1; 2; 3; 4; 5]%Z.

Definition trade (x : string) (k : nat) (q p : Q) : TradeEvent :=
  {| isin := x; rating := "AAA"; maturity_date := 0;
     trade_ts := Z.of_nat k * minute;
     qty_cr := q; price := p; buyer_cp := "CP1"; seller_cp := "CP26" |}.

(** Fifteen trades of "X" with growing quantities. *)
Definition fifteen_trades : list TradeEvent :=
  map (fun k => trade "X" k (inject_Z (Z.of_nat (S k)) * 1000000) 100)
      (seq 0 15).

(** Fifteen trades of "X", every one of quantity zero. *)
Definition zero_volume_trades : list TradeEvent :=
  map (fun k => trade "X" k 0 100) (seq 0 15).

(** Six trades of "X" followed by three trades of "Y". *)
Definition mixed_trades : list TradeEvent :=
  map (fun k => trade "X" k 1000000 100) (seq 0 6)
  ++ map (fun k => trade "Y" k 2000000 101) (seq 6 3).

(** A callee that raises on the trades of "Y". *)
Definition faulty_compute (g : list TradeEvent) : result (list MetricRecord) :=
  if existsb (fun t => String.eqb (isin t) "Y") g
  then Raise (Exception "boom")
  else compute_depth_score g.

(** Six trades of "X" and six of "Y". *)
Definition two_instruments : list TradeEvent :=
  map (fun k => trade "X" k 1000000 100) (seq 0 6)
  ++ map (fun k => trade "Y" k 2000000 101) (seq 6 6).

End Samples.

Module HeatmapSamples.

Import Heatmap.

Definition metric_row (i : string) (ts : Z) (d sp v : Q) : Metric :=
  {| isin := i; trade_ts := ts; depth_score := d; spread := sp;
     time_since_last := 1; vwap := v; volume_15min := 10;
     price := 100; qty_cr := 10 |}.

(** A loaded row of rating "AAA" observed at time 0 whose maturity lies
    [d] whole days ahead. *)
Definition row_with_tenor (d : Z) : Row :=
  {| metric := metric_row "A" 0 50 1 100;
     rating := Some "AAA"%string;
     maturity_date := Some (d * ns_per_day)%Z;
     tenor_years := None;
     tenor_bucket := None |}.

Definition meta_row (i r : string) (days : Z) : Meta :=
  {| meta_isin := i; meta_rating := Some r;
     meta_maturity_date := Some (days * ns_per_day)%Z |}.

(** Two instruments of one cell: "A" traded last at time 200 with a vwap
    of 5, "B" traded last at time 100 with a vwap of 7. *)
Definition two_in_one_cell : list Row :=
  load_metrics
    [metric_row "A" 200 40 1 5; metric_row "B" 100 60 2 7]
    [meta_row "A" "AAA" 400; meta_row "B" "AAA" 400].



End HeatmapSamples.

(* ===================================================================== *)
(** * Part II: proofs                                                    *)
(* ===================================================================== *)

(** ** Facts about the pandas primitives *)

Module PandasFacts.

Lemma Qltb_lt (x y : Q) : Qltb x y = true <-> x < y.
Proof.
  unfold Qltb. rewrite negb_true_iff.
  split; intro H.
  - apply Qnot_le_lt. intro Hle. apply Qle_bool_iff in Hle. congruence.
  - destruct (Qle_bool y x) eqn:E; [|reflexivity].
    apply Qle_bool_iff in E. exfalso. apply (Qlt_not_le _ _ H E).
Qed.

Lemma Qltb_ge (x y : Q) : Qltb x y = false <-> y <= x.
Proof.
  unfold Qltb. rewrite negb_false_iff. apply Qle_bool_iff.
Qed.

Lemma Qeq_bool_false (x y : Q) : Qeq_bool x y = false <-> ~ x == y.
Proof.
  split; intro H.
  - intro E. apply Qeq_bool_iff in E. congruence.
  - destruct (Qeq_bool x y) eqn:E; [|reflexivity].
    apply Qeq_bool_iff in E. contradiction.
Qed.

(** *** Lists built over [seq] *)

Lemma nth_map_seq {A : Type} (f : nat -> A) (n i : nat) (d : A) :
  (i < n)%nat -> nth i (map f (seq 0 n)) d = f i.
Proof.
  intro H.
  rewrite (nth_indep _ d (f 0%nat)) by (rewrite length_map, length_seq; exact H).
  rewrite (map_nth f (seq 0 n) 0%nat i), seq_nth by exact H.
  reflexivity.
Qed.

Lemma in_map_seq {A : Type} (f : nat -> A) (n : nat) (x : A) :
  In x (map f (seq 0 n)) <-> exists i, (i < n)%nat /\ x = f i.
Proof.
  rewrite in_map_iff. split.
  - intros [i [E Hi]]. apply in_seq in Hi. exists i. split; [lia | congruence].
  - intros [i [Hi E]]. exists i. split; [congruence | apply in_seq; lia].
Qed.

(** *** Sums and means *)

Lemma Qsum_nonneg (l : list Q) : (forall x, In x l -> 0 <= x) -> 0 <= Qsum l.
Proof.
  induction l as [|a l IH]; intros H; simpl.
  - apply Qle_refl.
  - assert (0 <= a) by (apply H; left; reflexivity).
    assert (0 <= Qsum l) by (apply IH; intros; apply H; right; assumption).
    lra.
Qed.

Lemma Qsum_zero_all (l : list Q) :
  (forall x, In x l -> 0 <= x) -> Qsum l == 0 -> forall x, In x l -> x == 0.
Proof.
  induction l as [|a l IH]; intros Hpos Hsum x Hx; simpl in *.
  - contradiction.
  - assert (Ha : 0 <= a) by (apply Hpos; left; reflexivity).
    assert (Hl : 0 <= Qsum l) by (apply Qsum_nonneg; intros; apply Hpos; right; assumption).
    destruct Hx as [<- | Hx].
    + lra.
    + apply IH; auto. lra.
Qed.

Lemma Qsum_all_zero (l : list Q) : (forall x, In x l -> x == 0) -> Qsum l == 0.
Proof.
  induction l as [|a l IH]; intros H; simpl.
  - reflexivity.
  - rewrite (H a) by (left; reflexivity).
    rewrite IH by (intros; apply H; right; assumption).
    reflexivity.
Qed.

Lemma Qmean_nonneg (l : list Q) : (forall x, In x l -> 0 <= x) -> 0 <= Qmean l.
Proof.
  intro H. unfold Qmean.
  pose proof (Qsum_nonneg l H) as Hs.
  destruct l as [|a l].
  - simpl. unfold Qdiv. rewrite Qmult_0_l. apply Qle_refl.
  - apply Qle_shift_div_l.
    + change 0 with (inject_Z 0). rewrite <- Zlt_Qlt. simpl length. lia.
    + rewrite Qmult_0_l. exact Hs.
Qed.

(** *** Windows *)

Lemma present_app (a b : list (option Q)) :
  present (a ++ b) = present a ++ present b.
Proof.
  induction a as [|[x|] a IH]; simpl; rewrite ?IH; reflexivity.
Qed.

Lemma in_present (l : list (option Q)) (x : Q) :
  In x (present l) <-> In (Some x) l.
Proof.
  induction l as [|[y|] l IH]; simpl.
  - tauto.
  - rewrite IH. split; intros [H|H]; auto; left; congruence.
  - rewrite IH. split; [auto | intros [H|H]; [discriminate | assumption]].
Qed.

Lemma present_map_Some {A : Type} (f : A -> Q) (l : list A) :
  present (map (fun t => Some (f t)) l) = map f l.
Proof.
  induction l as [|a l IH]; simpl; rewrite ?IH; reflexivity.
Qed.

Lemma window_map {A B : Type} (f : A -> B) (w i : nat) (l : list A) :
  window w i (map f l) = map f (window w i l).
Proof.
  unfold window. rewrite firstn_map, skipn_map. reflexivity.
Qed.

Lemma in_window {A : Type} (w i : nat) (l : list A) (x : A) :
  In x (window w i l) -> In x l.
Proof.
  unfold window. intro H.
  rewrite <- (firstn_skipn (i + 1) l). apply in_or_app. left.
  rewrite <- (firstn_skipn (i + 1 - w) (firstn (i + 1) l)).
  apply in_or_app. right. exact H.
Qed.

Lemma In_firstn_nth {A : Type} (l : list A) (j n : nat) (d : A) :
  (j < n)%nat -> (j < length l)%nat -> In (nth j l d) (firstn n l).
Proof.
  revert j n. induction l as [|a l IH]; intros j n Hn Hl; simpl in *.
  - lia.
  - destruct n; [lia|]. destruct j; simpl.
    + left; reflexivity.
    + right. apply IH; lia.
Qed.

Lemma In_skipn_nth {A : Type} (l : list A) (j n : nat) (d : A) :
  (n <= j)%nat -> (j < length l)%nat -> In (nth j l d) (skipn n l).
Proof.
  revert j n. induction l as [|a l IH]; intros j n Hn Hl; simpl in *.
  - lia.
  - destruct n; simpl.
    + destruct j; [left; reflexivity | right; apply nth_In; lia].
    + destruct j; [lia|]. apply IH; lia.
Qed.

(** Row [j] lies in the window of row [i] as soon as [i - w < j <= i]. *)
Lemma nth_in_window {A : Type} (w i j : nat) (l : list A) (d : A) :
  (j <= i)%nat -> (i < j + w)%nat -> (j < length l)%nat ->
  In (nth j l d) (window w i l).
Proof.
  intros Hji Hw Hl. unfold window.
  replace (nth j l d) with (nth j (firstn (i + 1) l) d).
  - apply In_skipn_nth; [lia|]. rewrite length_firstn. lia.
  - clear Hw. revert j i Hji Hl. induction l as [|a l IH]; intros j i Hji Hl.
    + simpl in Hl; lia.
    + replace (i + 1)%nat with (S i) by lia. simpl firstn.
      destruct j; simpl; [reflexivity|].
      destruct i; [lia|].
      replace (S i) with (i + 1)%nat by lia. apply IH; simpl in Hl; lia.
Qed.

(** *** [rolling] *)

Lemma rolling_length (agg : list Q -> Q) (w mp : nat) (col : list (option Q)) :
  length (rolling agg w mp col) = length col.
Proof.
  unfold rolling. rewrite length_map, length_seq. reflexivity.
Qed.

Lemma rolling_nth (agg : list Q -> Q) (w mp i : nat) (col : list (option Q)) :
  (i < length col)%nat ->
  nth i (rolling agg w mp col) None =
  if (mp <=? length (present (window w i col)))%nat
  then Some (agg (present (window w i col))) else None.
Proof.
  intro H. unfold rolling. rewrite nth_map_seq by exact H. reflexivity.
Qed.

(** *** [diff] *)

Lemma diff_from_length {A B : Type} (sub : A -> A -> B) (p : A) (l : list A) :
  length (diff_from sub p l) = length l.
Proof.
  revert p. induction l as [|a l IH]; intro p; simpl; [|rewrite IH]; reflexivity.
Qed.

Lemma diff_length {A B : Type} (sub : A -> A -> B) (l : list A) :
  length (diff sub l) = length l.
Proof.
  destruct l; simpl; [|rewrite diff_from_length]; reflexivity.
Qed.

Lemma diff_from_nth {A B : Type} (sub : A -> A -> B) (p : A) (l : list A)
      (j : nat) (d : A) :
  (j < length l)%nat ->
  nth j (diff_from sub p l) None = Some (sub (nth j l d) (nth j (p :: l) d)).
Proof.
  revert p j. induction l as [|a l IH]; intros p j H; simpl in H.
  - lia.
  - destruct j; simpl; [reflexivity|].
    rewrite (IH a j) by lia. reflexivity.
Qed.

(** After the first row every cell of [diff] is present: row [j + 1] holds
    the difference of rows [j + 1] and [j]. *)
Lemma diff_nth_S {A B : Type} (sub : A -> A -> B) (l : list A) (j : nat) (d : A) :
  (S j < length l)%nat ->
  nth (S j) (diff sub l) None = Some (sub (nth (S j) l d) (nth j l d)).
Proof.
  destruct l as [|a l]; simpl; intro H; [lia|].
  rewrite (diff_from_nth sub a l j d) by lia. reflexivity.
Qed.

Lemma diff_nth_0 {A B : Type} (sub : A -> A -> B) (l : list A) :
  nth 0 (diff sub l) None = None.
Proof.
  destruct l; reflexivity.
Qed.

(** *** Sorting *)

Section Sorting.

Context {A : Type} (leb : A -> A -> bool).
Hypothesis leb_total : forall x y, leb x y = true \/ leb y x = true.

Lemma insert_by_perm (x : A) (l : list A) :
  Permutation (x :: l) (insert_by leb x l).
Proof.
  induction l as [|y l IH]; simpl.
  - apply Permutation_refl.
  - destruct (leb x y).
    + apply Permutation_refl.
    + eapply perm_trans; [apply perm_swap|].
      apply perm_skip. exact IH.
Qed.

Lemma sort_by_perm (l : list A) : Permutation l (sort_by leb l).
Proof.
  induction l as [|x l IH]; simpl.
  - apply perm_nil.
  - eapply perm_trans; [apply perm_skip; exact IH|].
    apply insert_by_perm.
Qed.

Lemma sort_by_length (l : list A) : length (sort_by leb l) = length l.
Proof.
  symmetry. apply Permutation_length, sort_by_perm.
Qed.

Lemma sort_by_in (l : list A) (x : A) : In x (sort_by leb l) <-> In x l.
Proof.
  split; intro H.
  - eapply Permutation_in; [apply Permutation_sym, sort_by_perm | exact H].
  - eapply Permutation_in; [apply sort_by_perm | exact H].
Qed.

Lemma insert_by_sorted (x : A) (l : list A) :
  Sorted (fun a b => leb a b = true) l ->
  Sorted (fun a b => leb a b = true) (insert_by leb x l).
Proof.
  induction l as [|y l IH]; intro H; simpl.
  - constructor; constructor.
  - destruct (leb x y) eqn:E.
    + constructor; [exact H | constructor; exact E].
    + inversion H as [|? ? Hs Hh]; subst.
      constructor; [apply IH; exact Hs|].
      destruct l as [|z l]; simpl.
      * constructor. destruct (leb_total x y); congruence.
      * destruct (leb x z).
        -- constructor. destruct (leb_total x y); congruence.
        -- inversion Hh; subst. constructor. assumption.
Qed.

Lemma sort_by_sorted (l : list A) :
  Sorted (fun a b => leb a b = true) (sort_by leb l).
Proof.
  induction l as [|x l IH]; simpl.
  - constructor.
  - apply insert_by_sorted. exact IH.
Qed.

(** A sorted list is left as it is. *)
Lemma sort_by_id (l : list A) :
  Sorted (fun a b => leb a b = true) l -> sort_by leb l = l.
Proof.
  induction l as [|x l IH]; intro H; simpl.
  - reflexivity.
  - inversion H as [|? ? Hs Hh]; subst.
    rewrite IH by exact Hs.
    destruct l as [|y l]; simpl; [reflexivity|].
    inversion Hh; subst. rewrite H1. reflexivity.
Qed.

End Sorting.

Lemma Sorted_nth_step {A : Type} (R : A -> A -> Prop) (l : list A) (j : nat) (d : A) :
  Sorted R l -> (S j < length l)%nat -> R (nth j l d) (nth (S j) l d).
Proof.
  intro H. revert j. induction H as [|a l Hs IH Hh]; intros j Hj; simpl in Hj.
  - lia.
  - destruct j.
    + destruct l as [|b l]; simpl in *; [lia|]. inversion Hh; assumption.
    + change (R (nth j l d) (nth (S j) l d)). apply IH. lia.
Qed.

(** *** [unique] *)

Lemma unique_in (l : list string) (x : string) : In x (unique l) <-> In x l.
Proof.
  induction l as [|a l IH]; simpl.
  - tauto.
  - rewrite filter_In, IH, negb_true_iff, String.eqb_neq.
    destruct (string_dec a x) as [->|N]; [tauto|].
    split; [tauto|]. intros [H|H]; [contradiction|]. right. split; [assumption|congruence].
Qed.

Lemma NoDup_filter {A : Type} (f : A -> bool) (l : list A) :
  NoDup l -> NoDup (filter f l).
Proof.
  induction 1 as [|a l Hn Hd IH]; simpl.
  - constructor.
  - destruct (f a); [|exact IH].
    constructor; [|exact IH].
    rewrite filter_In. tauto.
Qed.

Lemma unique_NoDup (l : list string) : NoDup (unique l).
Proof.
  induction l as [|a l IH]; simpl.
  - constructor.
  - constructor.
    + rewrite filter_In, negb_true_iff, String.eqb_neq. tauto.
    + apply NoDup_filter. exact IH.
Qed.

End PandasFacts.

Import PandasFacts.

(** ** The per-ISIN loop *)

Module LoopFacts.

Import Metrics.

Lemma filter_filter_comm {A : Type} (f g : A -> bool) (l : list A) :
  filter f (filter g l) = filter g (filter f l).
Proof.
  induction l as [|a l IH]; simpl; [reflexivity|].
  destruct (f a) eqn:Ef, (g a) eqn:Eg; simpl; rewrite ?Ef, ?Eg, IH; reflexivity.
Qed.

Lemma filter_all {A : Type} (f : A -> bool) (l : list A) :
  (forall x, In x l -> f x = true) -> filter f l = l.
Proof.
  induction l as [|a l IH]; intro H; simpl; [reflexivity|].
  rewrite (H a) by (left; reflexivity).
  rewrite IH by (intros; apply H; right; assumption). reflexivity.
Qed.

Lemma filter_none {A : Type} (f : A -> bool) (l : list A) :
  (forall x, In x l -> f x = false) -> filter f l = [].
Proof.
  induction l as [|a l IH]; intro H; simpl; [reflexivity|].
  rewrite (H a) by (left; reflexivity).
  apply IH. intros; apply H; right; assumption.
Qed.

Lemma unique_filter (f : string -> bool) (l : list string) :
  unique (filter f l) = filter f (unique l).
Proof.
  induction l as [|a l IH]; simpl; [reflexivity|].
  destruct (f a) eqn:E; simpl.
  - rewrite IH, filter_filter_comm. reflexivity.
  - rewrite IH. symmetry. rewrite filter_filter_comm.
    apply filter_all. intros x Hx.
    apply filter_In in Hx. destruct Hx as [_ Hx].
    destruct (String.eqb_spec x a) as [->|N]; [congruence | reflexivity].
Qed.

Lemma map_isin_filter (i : string) (trades : list TradeEvent) :
  map isin (filter (fun t => negb (String.eqb (isin t) i)) trades) =
  filter (fun s => negb (String.eqb s i)) (map isin trades).
Proof.
  induction trades as [|t l IH]; simpl; [reflexivity|].
  destruct (negb (String.eqb (isin t) i)); simpl; rewrite IH; reflexivity.
Qed.

Lemma isin_trades_others (i k : string) (trades : list TradeEvent) :
  k <> i ->
  isin_trades (filter (fun t => negb (String.eqb (isin t) i)) trades) k =
  isin_trades trades k.
Proof.
  intro N. unfold isin_trades. rewrite filter_filter_comm.
  apply filter_all. intros t Ht. apply filter_In in Ht. destruct Ht as [_ Ht].
  apply String.eqb_eq in Ht. rewrite Ht.
  apply negb_true_iff, String.eqb_neq. exact N.
Qed.

Lemma isin_trades_isin (trades : list TradeEvent) (i : string) (t : TradeEvent) :
  In t (isin_trades trades i) -> isin t = i.
Proof.
  unfold isin_trades. rewrite filter_In. intros [_ H].
  apply String.eqb_eq. exact H.
Qed.

Lemma isin_trades_nonempty (trades : list TradeEvent) (i : string) :
  In i (map isin trades) -> (0 < length (isin_trades trades i))%nat.
Proof.
  rewrite in_map_iff. intros [t [E Ht]].
  assert (H : In t (isin_trades trades i)).
  { unfold isin_trades. apply filter_In. split; [exact Ht|].
    apply String.eqb_eq. exact E. }
  destruct (isin_trades trades i); simpl in *; [contradiction | lia].
Qed.

Section AnyCallee.

Variable compute : list TradeEvent -> result (list MetricRecord).

Lemma fold_loop_all_metrics (trades : list TradeEvent) (keys : list string)
      (st : LoopState) :
  all_metrics (fold_left (loop_body compute trades) keys st) =
  all_metrics st ++ flat_map (frames_at compute trades) keys.
Proof.
  revert st. induction keys as [|k keys IH]; intro st; simpl.
  - rewrite app_nil_r. reflexivity.
  - rewrite IH. unfold loop_body, frames_at.
    destruct (5 <? length (isin_trades trades k))%nat; simpl; [|reflexivity].
    destruct (compute (isin_trades trades k)); simpl;
      [rewrite <- app_assoc|]; reflexivity.
Qed.

Lemma fold_loop_log (trades : list TradeEvent) (keys : list string)
      (st : LoopState) :
  log (fold_left (loop_body compute trades) keys st) =
  log st ++ flat_map (log_at compute trades) keys.
Proof.
  revert st. induction keys as [|k keys IH]; intro st; simpl.
  - rewrite app_nil_r. reflexivity.
  - rewrite IH. unfold loop_body, log_at.
    destruct (5 <? length (isin_trades trades k))%nat; simpl.
    + destruct (compute (isin_trades trades k)); simpl;
        [|rewrite <- app_assoc]; reflexivity.
    + rewrite <- app_assoc. reflexivity.
Qed.

Lemma fold_loop_valid (trades : list TradeEvent) (keys : list string)
      (st : LoopState) :
  valid_isins (fold_left (loop_body compute trades) keys st) =
  (valid_isins st + length (flat_map (frames_at compute trades) keys))%nat.
Proof.
  revert st. induction keys as [|k keys IH]; intro st; simpl.
  - lia.
  - rewrite IH, length_app. unfold loop_body, frames_at.
    destruct (5 <? length (isin_trades trades k))%nat; simpl; [|lia].
    destruct (compute (isin_trades trades k)); simpl; lia.
Qed.

Lemma run_loop_all_metrics (trades : list TradeEvent) :
  all_metrics (run_loop compute trades) =
  flat_map (frames_at compute trades) (unique (map isin trades)).
Proof.
  unfold run_loop. rewrite fold_loop_all_metrics. reflexivity.
Qed.

Lemma run_loop_log (trades : list TradeEvent) :
  log (run_loop compute trades) =
  flat_map (log_at compute trades) (unique (map isin trades)).
Proof.
  unfold run_loop. rewrite fold_loop_log. reflexivity.
Qed.

Lemma run_loop_valid (trades : list TradeEvent) :
  valid_isins (run_loop compute trades) =
  length (all_metrics (run_loop compute trades)).
Proof.
  rewrite run_loop_all_metrics. unfold run_loop.
  rewrite fold_loop_valid. reflexivity.
Qed.

Lemma emitted_concat (trades : list TradeEvent) :
  emitted compute trades =
  dropna (concat (all_metrics (run_loop compute trades))).
Proof.
  unfold emitted, metrics_df.
  destruct (all_metrics (run_loop compute trades)); reflexivity.
Qed.

(** Removing the trades of an instrument whose iteration appends no
    frame leaves the list of frames as it is. *)
Lemma frames_without (trades : list TradeEvent) (i : string)
      (keys : list string) :
  frames_at compute trades i = [] ->
  flat_map (frames_at compute trades) keys =
  flat_map
    (frames_at compute
               (filter (fun t => negb (String.eqb (isin t) i)) trades))
    (filter (fun s => negb (String.eqb s i)) keys).
Proof.
  intro Hi. induction keys as [|k keys IH]; simpl; [reflexivity|].
  destruct (String.eqb_spec k i) as [->|N]; simpl.
  - rewrite Hi. exact IH.
  - rewrite IH. f_equal.
    unfold frames_at. rewrite isin_trades_others by exact N. reflexivity.
Qed.

End AnyCallee.

(** C9.  The [try]/[except] of the loop isolates a failing instrument: when
    the computation for instrument [i] raises, the error is logged, and the
    frames collected, the count of processed instruments and the table
    written are those of the batch run without the trades of [i]. *)
Theorem failing_instrument_isolated
        (compute : list TradeEvent -> result (list MetricRecord))
        (trades : list TradeEvent) (i : string) (e : exn) :
  In i (map isin trades) ->
  (5 < length (isin_trades trades i))%nat ->
  compute (isin_trades trades i) = Raise e ->
  let others := filter (fun t => negb (String.eqb (isin t) i)) trades in
  In (LogError i e) (log (run_loop compute trades)) /\
  all_metrics (run_loop compute trades) = all_metrics (run_loop compute others) /\
  valid_isins (run_loop compute trades) = valid_isins (run_loop compute others) /\
  metrics_df compute trades = metrics_df compute others /\
  emitted compute trades = emitted compute others.
Proof.
  intros Hin Hlen Hraise others.
  assert (Hfr : frames_at compute trades i = []).
  { unfold frames_at. apply Nat.ltb_lt in Hlen. rewrite Hlen, Hraise. reflexivity. }
  assert (Hall : all_metrics (run_loop compute trades) =
                 all_metrics (run_loop compute others)).
  { rewrite !run_loop_all_metrics. unfold others.
    rewrite map_isin_filter, unique_filter.
    apply frames_without. exact Hfr. }
  split; [|split; [exact Hall|split; [|split]]].
  - rewrite run_loop_log. apply in_flat_map. exists i. split.
    + apply unique_in. exact Hin.
    + unfold log_at. apply Nat.ltb_lt in Hlen. rewrite Hlen, Hraise.
      left; reflexivity.
  - rewrite !run_loop_valid, Hall. reflexivity.
  - unfold metrics_df. rewrite Hall. reflexivity.
  - rewrite !emitted_concat, Hall. reflexivity.
Qed.

End LoopFacts.

(** ** The batch of [compute_metrics.py] *)

Module EngineFacts.

Import Metrics LoopFacts.

Lemma trade_ts_leb_total (a b : TradeEvent) :
  (trade_ts a <=? trade_ts b)%Z = true \/ (trade_ts b <=? trade_ts a)%Z = true.
Proof.
  rewrite !Z.leb_le. lia.
Qed.

Lemma sort_values_length (g : list TradeEvent) :
  length (sort_values_trade_ts g) = length g.
Proof.
  apply sort_by_length.
Qed.

Lemma sort_values_in (g : list TradeEvent) (t : TradeEvent) :
  In t (sort_values_trade_ts g) <-> In t g.
Proof.
  apply sort_by_in.
Qed.

Lemma frame_of_length (i : string) (s : list TradeEvent) :
  length (frame_of i s) = length s.
Proof.
  unfold frame_of. rewrite length_map, length_seq. reflexivity.
Qed.

Lemma frame_of_isin (i : string) (s : list TradeEvent) (r : MetricRecord) :
  In r (frame_of i s) -> m_isin r = i.
Proof.
  unfold frame_of. rewrite in_map_seq. intros [k [_ ->]]. reflexivity.
Qed.

(** On the trades of one instrument the callee returns the frame of the
    sorted group, labelled with that instrument. *)
Lemma compute_depth_score_frame (g : list TradeEvent) (i : string) :
  (0 < length g)%nat -> (forall t, In t g -> isin t = i) ->
  compute_depth_score g = Ok (frame_of i (sort_values_trade_ts g)).
Proof.
  intros Hlen Hi. unfold compute_depth_score.
  destruct g as [|t g]; [simpl in Hlen; lia|].
  pose proof (sort_values_length (t :: g)) as Hl.
  pose proof (sort_values_in (t :: g)) as Hin.
  destruct (sort_values_trade_ts (t :: g)) as [|f s]; [simpl in Hl; lia|].
  rewrite (Hi f); [reflexivity|].
  apply Hin. left; reflexivity.
Qed.

Lemma frames_at_engine (trades : list TradeEvent) (i : string) :
  frames_at compute_depth_score trades i =
  if (5 <? length (isin_trades trades i))%nat
  then [frame_of i (sort_values_trade_ts (isin_trades trades i))]
  else [].
Proof.
  unfold frames_at.
  destruct (5 <? length (isin_trades trades i))%nat eqn:E; [|reflexivity].
  apply Nat.ltb_lt in E.
  rewrite (compute_depth_score_frame _ i); [reflexivity | lia |].
  apply isin_trades_isin.
Qed.

Lemma log_at_engine (trades : list TradeEvent) (i : string) :
  log_at compute_depth_score trades i =
  if (5 <? length (isin_trades trades i))%nat
  then []
  else [LogWarning i (length (isin_trades trades i))].
Proof.
  unfold log_at.
  destruct (5 <? length (isin_trades trades i))%nat eqn:E; [|reflexivity].
  apply Nat.ltb_lt in E.
  rewrite (compute_depth_score_frame _ i); [reflexivity | lia |].
  apply isin_trades_isin.
Qed.

Lemma frames_at_engine_isin (trades : list TradeEvent) (k : string)
      (r : MetricRecord) :
  In r (concat (frames_at compute_depth_score trades k)) -> m_isin r = k.
Proof.
  rewrite frames_at_engine.
  destruct (5 <? length (isin_trades trades k))%nat; simpl.
  - rewrite app_nil_r. apply frame_of_isin.
  - contradiction.
Qed.

(** The rows of instrument [i] among the collected frames are the rows of
    its own frame. *)
Lemma filter_frames (trades : list TradeEvent) (i : string) (keys : list string) :
  NoDup keys -> In i keys ->
  filter (fun r => String.eqb (m_isin r) i)
         (concat (flat_map (frames_at compute_depth_score trades) keys)) =
  concat (frames_at compute_depth_score trades i).
Proof.
  intro Hnd. induction Hnd as [|k keys Hk Hnd IH]; intro Hin; simpl.
  - contradiction.
  - rewrite concat_app, filter_app.
    destruct (string_dec k i) as [->|N].
    + rewrite filter_all.
      2:{ intros r Hr. apply String.eqb_eq. eapply frames_at_engine_isin; eassumption. }
      rewrite filter_none; [apply app_nil_r|].
      intros r Hr. apply String.eqb_neq. intro E.
      apply in_concat in Hr. destruct Hr as [fr [Hfr Hr]].
      apply in_flat_map in Hfr. destruct Hfr as [k [Hk' Hfr]].
      assert (m_isin r = k).
      { apply (frames_at_engine_isin trades). apply in_concat. eauto. }
      subst. contradiction.
    + destruct Hin as [E|Hin]; [contradiction|].
      rewrite filter_none; [simpl; apply IH; exact Hin|].
      intros r Hr. apply String.eqb_neq. intro E.
      apply frames_at_engine_isin in Hr. congruence.
Qed.

Lemma engine_emitted_for_eq (trades : list TradeEvent) (i : string) :
  In i (map isin trades) ->
  engine_emitted_for trades i =
  dropna (concat (frames_at compute_depth_score trades i)).
Proof.
  intro Hin. unfold engine_emitted_for, emitted_for.
  rewrite emitted_concat, run_loop_all_metrics.
  unfold dropna. rewrite filter_filter_comm. f_equal.
  apply filter_frames; [apply unique_NoDup | apply unique_in; exact Hin].
Qed.

(** C4.  An instrument with fewer than 6 trades is skipped with a warning
    and no emitted record bears its id; an instrument with at least 6
    trades is processed: its emitted records are the rows without a null
    cell of the frame computed from its own sorted trades, one row per
    trade, and no warning is logged for it. *)
Theorem short_instrument_skipped (trades : list TradeEvent) (i : string) :
  In i (map isin trades) ->
  let g := isin_trades trades i in
  ((length g < 6)%nat ->
     engine_emitted_for trades i = [] /\
     (forall r, In r (engine_emitted trades) -> m_isin r <> i) /\
     In (LogWarning i (length g)) (engine_log trades)) /\
  ((6 <= length g)%nat ->
     engine_emitted_for trades i =
       dropna (frame_of i (sort_values_trade_ts g)) /\
     length (frame_of i (sort_values_trade_ts g)) = length g /\
     (forall n, ~ In (LogWarning i n) (engine_log trades))).
Proof.
  intros Hin g. split; intro Hlen.
  - assert (E : (5 <? length (isin_trades trades i))%nat = false)
      by (apply Nat.ltb_ge; fold g; lia).
    assert (Hnil : engine_emitted_for trades i = []).
    { rewrite engine_emitted_for_eq by exact Hin.
      rewrite frames_at_engine, E. reflexivity. }
    split; [exact Hnil|split].
    + intros r Hr Hi.
      assert (In r (engine_emitted_for trades i)).
      { unfold engine_emitted_for, emitted_for. apply filter_In.
        split; [exact Hr | apply String.eqb_eq; exact Hi]. }
      rewrite Hnil in H. contradiction.
    + unfold engine_log. rewrite run_loop_log. apply in_flat_map.
      exists i. split; [apply unique_in; exact Hin|].
      rewrite log_at_engine, E. left; reflexivity.
  - assert (E : (5 <? length (isin_trades trades i))%nat = true)
      by (apply Nat.ltb_lt; fold g; lia).
    split; [|split].
    + rewrite engine_emitted_for_eq by exact Hin.
      rewrite frames_at_engine, E. simpl. rewrite app_nil_r. reflexivity.
    + rewrite frame_of_length. apply sort_values_length.
    + intros n Hn. unfold engine_log in Hn. rewrite run_loop_log in Hn.
      apply in_flat_map in Hn. destruct Hn as [k [_ Hk]].
      rewrite log_at_engine in Hk.
      destruct (5 <? length (isin_trades trades k))%nat eqn:Ek; simpl in Hk.
      * contradiction.
      * destruct Hk as [Hk|[]]. inversion Hk; subst. congruence.
Qed.

End EngineFacts.

(** ** The depth score of one instrument *)

Module DepthFacts.

Import Metrics LoopFacts EngineFacts.

(** *** Cells *)

Lemma fdiv_pos (a b : Q) : 0 < b -> fdiv (Fin a) (Fin b) = Fin (a / b).
Proof.
  intro H. simpl.
  replace (Qeq_bool b 0) with false; [reflexivity|].
  symmetry. apply Qeq_bool_false. lra.
Qed.

Lemma fdiv_zero_zero (a b : Q) : a == 0 -> b == 0 -> fdiv (Fin a) (Fin b) = NaN.
Proof.
  intros Ha Hb. simpl.
  apply Qeq_bool_iff in Ha, Hb. rewrite Ha, Hb. reflexivity.
Qed.

Lemma fold_max_spec (l : list float) :
  forall acc,
    (forall x, In x l -> finite_or_nan x) -> finite_or_nan acc ->
    let r := fold_left max_skipna l acc in
    finite_or_nan r /\
    (r = NaN -> acc = NaN /\ forall x, In x l -> x = NaN) /\
    (forall m, r = Fin m ->
       (acc = Fin m \/ In (Fin m) l) /\
       (forall q, acc = Fin q -> q <= m) /\
       (forall q, In (Fin q) l -> q <= m)).
Proof.
  induction l as [|x l IH]; intros acc Hl Hacc; simpl.
  - split; [exact Hacc|]. split.
    + intro E. split; [exact E | intros ? []].
    + intros m E. split; [left; exact E|]. split.
      * intros q Eq. rewrite E in Eq. inversion Eq; subst. apply Qle_refl.
      * intros ? [].
  - assert (Hx : finite_or_nan x) by (apply Hl; left; reflexivity).
    assert (Hl' : forall y, In y l -> finite_or_nan y)
      by (intros; apply Hl; right; assumption).
    assert (Hacc' : finite_or_nan (max_skipna acc x)).
    { destruct Hacc as [->|[a ->]]; simpl; [exact Hx|].
      destruct Hx as [->|[b ->]]; simpl; [right; eauto|].
      destruct (Qltb a b); right; eauto. }
    destruct (IH (max_skipna acc x) Hl' Hacc') as [Hr [Hnan Hfin]].
    split; [exact Hr|]. split.
    + intro E. destruct (Hnan E) as [Ea Hall].
      destruct Hacc as [->|[a ->]]; simpl in Ea.
      * split; [reflexivity|]. intros y [<-|Hy]; [exact Ea | apply Hall; exact Hy].
      * destruct Hx as [->|[b ->]]; simpl in Ea; [discriminate|].
        destruct (Qltb a b); discriminate.
    + intros m E. destruct (Hfin m E) as [Hwit [Hup1 Hup2]].
      destruct Hacc as [->|[a ->]]; simpl in Hwit, Hup1.
      * split; [|split].
        -- destruct Hwit as [->|Hw]; right; [left; reflexivity | right; exact Hw].
        -- intros q Eq. discriminate.
        -- intros q [->|Hq]; [apply Hup1; reflexivity | apply Hup2; exact Hq].
      * destruct Hx as [->|[b ->]]; simpl in Hwit, Hup1.
        -- split; [|split].
           ++ destruct Hwit as [Hw|Hw]; [left; exact Hw | right; right; exact Hw].
           ++ exact Hup1.
           ++ intros q [Eq|Hq]; [discriminate | apply Hup2; exact Hq].
        -- destruct (Qltb a b) eqn:Eab.
           ++ apply Qltb_lt in Eab.
              assert (b <= m) by (apply Hup1; reflexivity).
              split; [|split].
              ** destruct Hwit as [Hw|Hw]; right; [left; exact Hw | right; exact Hw].
              ** intros q Eq. inversion Eq; subst. lra.
              ** intros q [Eq|Hq]; [inversion Eq; subst; exact H | apply Hup2; exact Hq].
           ++ apply Qltb_ge in Eab.
              assert (a <= m) by (apply Hup1; reflexivity).
              split; [|split].
              ** destruct Hwit as [Hw|Hw]; [left; exact Hw | right; right; exact Hw].
              ** exact Hup1.
              ** intros q [Eq|Hq]; [inversion Eq; subst; lra | apply Hup2; exact Hq].
Qed.

(** [Series.max()] of a column of finite and missing cells: missing only
    when every cell is, otherwise a cell of the column that bounds the
    others. *)
Lemma series_max_spec (l : list float) :
  (forall x, In x l -> finite_or_nan x) ->
  (series_max l = NaN /\ forall x, In x l -> x = NaN) \/
  (exists m, series_max l = Fin m /\ In (Fin m) l /\
             forall q, In (Fin q) l -> q <= m).
Proof.
  intro Hl. unfold series_max.
  destruct (fold_max_spec l NaN Hl (or_introl eq_refl)) as [Hr [Hnan Hfin]].
  destruct Hr as [E|[m E]].
  - left. split; [exact E | apply Hnan; exact E].
  - right. exists m. destruct (Hfin m E) as [Hw [_ Hup]].
    split; [exact E|]. split; [|exact Hup].
    destruct Hw as [Hw|Hw]; [discriminate | exact Hw].
Qed.

Lemma normalize_nth (l : list float) (k : nat) :
  nth k (normalize l) NaN =
  if fltb (Fin 0) (series_max l)
  then fmul (fdiv (nth k l NaN) (series_max l)) (Fin 100)
  else nth k l NaN.
Proof.
  unfold normalize. destruct (fltb (Fin 0) (series_max l)); [|reflexivity].
  exact (map_nth (fun d => fmul (fdiv d (series_max l)) (Fin 100)) l NaN k).
Qed.

(** *** Columns *)

Lemma present_length_all (l : list (option Q)) :
  (forall x, In x l -> x <> None) -> length (present l) = length l.
Proof.
  induction l as [|[x|] l IH]; intro H; simpl.
  - reflexivity.
  - rewrite IH by (intros; apply H; right; assumption). reflexivity.
  - exfalso. apply (H None); [left|]; reflexivity.
Qed.

(** From row 5 on, the window of 10 of a column whose only missing cell
    is the first one holds at least 5 observations. *)
Lemma window_present_count (col : list (option Q)) (k : nat) :
  (forall j, (1 <= j < length col)%nat -> nth j col None <> None) ->
  (5 <= k < length col)%nat ->
  (5 <= length (present (window 10 k col)))%nat.
Proof.
  intros Hsome Hk. unfold window.
  set (l' := firstn (k + 1) col).
  assert (Hl' : length l' = (k + 1)%nat)
    by (unfold l'; rewrite length_firstn; lia).
  set (a := (k + 1 - 10)%nat).
  rewrite <- (firstn_skipn (k - 4 - a) (skipn a l')).
  rewrite present_app, length_app, skipn_skipn.
  replace (k - 4 - a + a)%nat with (k - 4)%nat by (unfold a; lia).
  rewrite (present_length_all (skipn (k - 4) l')).
  - rewrite length_skipn. lia.
  - intros x Hx. apply (In_nth _ _ None) in Hx.
    destruct Hx as [i [Hi <-]]. rewrite length_skipn in Hi.
    rewrite nth_skipn. unfold l'. rewrite nth_firstn.
    replace (k - 4 + i <? k + 1)%nat with true
      by (symmetry; apply Nat.ltb_lt; lia).
    apply Hsome. lia.
Qed.

Lemma window_nonempty {A : Type} (w k : nat) (l : list A) :
  (0 < w)%nat -> (k < length l)%nat -> (1 <= length (window w k l))%nat.
Proof.
  intros Hw Hk. unfold window. rewrite length_skipn, length_firstn. lia.
Qed.

Lemma in_diff {A B : Type} (sub : A -> A -> B) (l : list A) (x : B) (d : A) :
  In (Some x) (diff sub l) ->
  exists j, (S j < length l)%nat /\ x = sub (nth (S j) l d) (nth j l d).
Proof.
  intro H. apply (In_nth _ _ None) in H. destruct H as [k [Hk E]].
  rewrite diff_length in Hk. destruct k as [|j].
  - rewrite diff_nth_0 in E. discriminate.
  - exists j. split; [exact Hk|].
    rewrite (diff_nth_S sub l j d) in E by exact Hk. congruence.
Qed.

Lemma minutes_of_ns_nonneg (d : Z) : (0 <= d)%Z -> 0 <= minutes_of_ns d.
Proof.
  intro H. unfold minutes_of_ns, ns_per_second.
  assert (0 <= inject_Z d) by (change 0 with (inject_Z 0); rewrite <- Zle_Qle; exact H).
  apply Qle_shift_div_l; [reflexivity|]. rewrite Qmult_0_l.
  apply Qle_shift_div_l; [reflexivity|]. rewrite Qmult_0_l. exact H0.
Qed.

Lemma col_qty_length (s : list TradeEvent) : length (col_qty s) = length s.
Proof. unfold col_qty. apply length_map. Qed.

Lemma col_price_qty_length (s : list TradeEvent) :
  length (col_price_qty s) = length s.
Proof. unfold col_price_qty. apply length_map. Qed.

Lemma col_time_length (s : list TradeEvent) :
  length (col_time_since_last s) = length s.
Proof.
  unfold col_time_since_last. rewrite length_map, diff_length, length_map.
  reflexivity.
Qed.

Lemma col_spread_length (s : list TradeEvent) :
  length (col_spread_bps s) = length s.
Proof.
  unfold col_spread_bps. rewrite length_map, diff_length, length_map.
  reflexivity.
Qed.

Lemma nth_map_option {A : Type} (f : A -> Q) (l : list (option A)) (k : nat) :
  nth k (map (option_map f) l) None = option_map f (nth k l None).
Proof.
  exact (map_nth (option_map f) l None k).
Qed.

Lemma col_time_nth_0 (s : list TradeEvent) :
  nth 0 (col_time_since_last s) None = None.
Proof.
  unfold col_time_since_last. rewrite nth_map_option, diff_nth_0. reflexivity.
Qed.

Lemma col_spread_nth_0 (s : list TradeEvent) :
  nth 0 (col_spread_bps s) None = None.
Proof.
  unfold col_spread_bps. rewrite nth_map_option, diff_nth_0. reflexivity.
Qed.

Lemma col_time_nth_some (s : list TradeEvent) (j : nat) :
  (1 <= j < length s)%nat -> nth j (col_time_since_last s) None <> None.
Proof.
  intros [H1 H2]. destruct j as [|j]; [lia|].
  unfold col_time_since_last.
  rewrite nth_map_option, (diff_nth_S Z.sub _ j 0%Z) by (rewrite length_map; lia).
  discriminate.
Qed.

Lemma col_spread_nth_some (s : list TradeEvent) (j : nat) :
  (1 <= j < length s)%nat -> nth j (col_spread_bps s) None <> None.
Proof.
  intros [H1 H2]. destruct j as [|j]; [lia|].
  unfold col_spread_bps.
  rewrite nth_map_option, (diff_nth_S Qminus _ j 0) by (rewrite length_map; lia).
  discriminate.
Qed.

Lemma col_qty_nth_some (s : list TradeEvent) (j : nat) :
  (j < length s)%nat -> nth j (col_qty s) None <> None.
Proof.
  intro H. unfold col_qty.
  rewrite (nth_indep _ None (Some (qty_cr null_trade))) by (rewrite length_map; exact H).
  rewrite (map_nth (fun t => Some (qty_cr t))). discriminate.
Qed.

Lemma col_spread_nonneg (s : list TradeEvent) (x : Q) :
  In (Some x) (col_spread_bps s) -> 0 <= x.
Proof.
  unfold col_spread_bps. rewrite in_map_iff. intros [[d|] [E _]]; simpl in E.
  - inversion E; subst. pose proof (Qabs_nonneg d). nra.
  - discriminate.
Qed.

Lemma col_time_nonneg (s : list TradeEvent) (x : Q) :
  Sorted (fun a b => (trade_ts a <=? trade_ts b)%Z = true) s ->
  In (Some x) (col_time_since_last s) -> 0 <= x.
Proof.
  intro Hs. unfold col_time_since_last. rewrite in_map_iff.
  intros [[d|] [E Hd]]; simpl in E; [|discriminate].
  inversion E; subst. apply minutes_of_ns_nonneg.
  apply (in_diff Z.sub _ d (trade_ts null_trade)) in Hd.
  destruct Hd as [j [Hj ->]].
  rewrite length_map in Hj.
  pose proof (Sorted_nth_step _ s j null_trade Hs Hj) as H.
  simpl in H. apply Z.leb_le in H.
  rewrite !(map_nth trade_ts). lia.
Qed.

Lemma rolling_nth_some (agg : list Q -> Q) (w mp k : nat) (col : list (option Q))
      (v : Q) :
  nth k (rolling agg w mp col) None = Some v ->
  (k < length col)%nat /\
  (mp <= length (present (window w k col)))%nat /\
  v = agg (present (window w k col)).
Proof.
  intro H.
  assert (Hk : (k < length col)%nat).
  { destruct (Nat.lt_ge_cases k (length col)) as [L|G]; [exact L|].
    rewrite nth_overflow in H by (rewrite rolling_length; exact G). discriminate. }
  rewrite rolling_nth in H by exact Hk.
  destruct (mp <=? length (present (window w k col)))%nat eqn:E; [|discriminate].
  apply Nat.leb_le in E. inversion H. auto.
Qed.

Lemma rolling_nth_present (agg : list Q -> Q) (w mp k : nat) (col : list (option Q)) :
  (k < length col)%nat ->
  (mp <= length (present (window w k col)))%nat ->
  nth k (rolling agg w mp col) None = Some (agg (present (window w k col))).
Proof.
  intros Hk Hc. rewrite rolling_nth by exact Hk.
  apply Nat.leb_le in Hc. rewrite Hc. reflexivity.
Qed.

Lemma window_col_qty (w k : nat) (s : list TradeEvent) :
  present (window w k (col_qty s)) = map qty_cr (window w k s).
Proof.
  unfold col_qty. rewrite window_map, present_map_Some. reflexivity.
Qed.

Lemma window_col_price_qty (w k : nat) (s : list TradeEvent) :
  present (window w k (col_price_qty s)) =
  map (fun t => price t * qty_cr t) (window w k s).
Proof.
  unfold col_price_qty. rewrite window_map.
  exact (present_map_Some (fun t => price t * qty_cr t) _).
Qed.

(** *** Arithmetic of the score *)

Lemma Qdiv_nonneg (a b : Q) : 0 <= a -> 0 < b -> 0 <= a / b.
Proof.
  intros Ha Hb. apply Qle_shift_div_l; [exact Hb|]. rewrite Qmult_0_l. exact Ha.
Qed.

Lemma Qdiv_eq0 (a b : Q) : 0 < b -> a / b == 0 -> a == 0.
Proof.
  intros Hb H.
  assert (E : a == a / b * b) by (field; lra).
  rewrite E, H. ring.
Qed.

Lemma Qdiv_pos (a b : Q) : 0 < a -> 0 < b -> 0 < a / b.
Proof.
  intros Ha Hb. apply Qlt_shift_div_l; [exact Hb|]. rewrite Qmult_0_l. exact Ha.
Qed.

Lemma scaled_bounds (x m : Q) :
  0 <= x -> x <= m -> 0 < m -> 0 <= x / m * 100 /\ x / m * 100 <= 100.
Proof.
  intros H0 Hx Hm.
  assert (0 <= x / m) by (apply Qdiv_nonneg; assumption).
  assert (x / m <= 1).
  { apply Qle_shift_div_r; [exact Hm|]. lra. }
  split; lra.
Qed.

Lemma scaled_max (m : Q) : 0 < m -> m / m * 100 == 100.
Proof.
  intro H. field. lra.
Qed.

Lemma fdiv_nan_r (x : float) : fdiv x NaN = NaN.
Proof. destruct x; reflexivity. Qed.

(** *** One sorted group with non-negative quantities *)

Section OneInstrument.

Variable s : list TradeEvent.
Variable i : string.
Hypothesis s_sorted :
  Sorted (fun a b => (trade_ts a <=? trade_ts b)%Z = true) s.
Hypothesis s_qty : forall t, In t s -> 0 <= qty_cr t.

Lemma window_qty_nonneg (w k : nat) (x : Q) :
  In x (map qty_cr (window w k s)) -> 0 <= x.
Proof.
  rewrite in_map_iff. intros [t [<- Ht]].
  apply s_qty. eapply in_window. exact Ht.
Qed.

Lemma rolling_volume_value (k : nat) (v : Q) :
  nth k (rolling_volume s) None = Some v ->
  (k < length s)%nat /\ v = Qsum (map qty_cr (window 10 k s)) /\ 0 <= v.
Proof.
  intro H. apply rolling_nth_some in H. destruct H as [Hk [_ ->]].
  rewrite col_qty_length in Hk. rewrite window_col_qty.
  split; [exact Hk|]. split; [reflexivity|].
  apply Qsum_nonneg. apply window_qty_nonneg.
Qed.

Lemma rolling_time_nonneg (k : nat) (t : Q) :
  nth k (rolling_time s) None = Some t -> 0 <= t.
Proof.
  intro H. apply rolling_nth_some in H. destruct H as [_ [_ ->]].
  apply Qmean_nonneg. intros x Hx.
  apply in_present in Hx. apply in_window in Hx.
  eapply col_time_nonneg; eassumption.
Qed.

Lemma rolling_spread_nonneg (k : nat) (sp : Q) :
  nth k (rolling_spread s) None = Some sp -> 0 <= sp.
Proof.
  intro H. apply rolling_nth_some in H. destruct H as [_ [_ ->]].
  apply Qmean_nonneg. intros x Hx.
  apply in_present in Hx. apply in_window in Hx.
  eapply col_spread_nonneg; eassumption.
Qed.

(** The raw depth of a row is missing or the finite quotient of a
    non-negative volume by two positive denominators. *)
Lemma raw_depth_cases (k : nat) :
  raw_depth_at s k = NaN \/
  exists v t sp,
    nth k (rolling_volume s) None = Some v /\
    nth k (rolling_time s) None = Some t /\
    nth k (rolling_spread s) None = Some sp /\
    0 <= v /\ 0 <= t /\ 0 <= sp /\
    raw_depth_at s k = Fin (v / (t + min_time) / (sp + min_spread)).
Proof.
  unfold raw_depth_at.
  destruct (nth k (rolling_volume s) None) as [v|] eqn:Ev; [|left; reflexivity].
  destruct (nth k (rolling_time s) None) as [t|] eqn:Et;
    [|left; simpl; reflexivity].
  destruct (nth k (rolling_spread s) None) as [sp|] eqn:Es;
    [|left; apply fdiv_nan_r].
  right. exists v, t, sp.
  pose proof (rolling_volume_value k v Ev) as [_ [_ Hv]].
  pose proof (rolling_time_nonneg k t Et) as Ht.
  pose proof (rolling_spread_nonneg k sp Es) as Hsp.
  repeat (split; [first [reflexivity | assumption]|]).
  simpl of_option. simpl option_map.
  rewrite fdiv_pos by (unfold min_time; lra).
  rewrite fdiv_pos by (unfold min_spread; lra).
  reflexivity.
Qed.

Lemma raw_depth_finite_or_nan (x : float) :
  In x (raw_depth s) -> finite_or_nan x.
Proof.
  unfold raw_depth. rewrite in_map_seq. intros [k [_ ->]].
  destruct (raw_depth_cases k) as [E|[v [t [sp [_ [_ [_ [_ [_ [_ E]]]]]]]]]];
    rewrite E; [left | right; eexists]; reflexivity.
Qed.

Lemma raw_depth_nth (k : nat) :
  (k < length s)%nat -> nth k (raw_depth s) NaN = raw_depth_at s k.
Proof.
  intro H. unfold raw_depth. apply nth_map_seq. exact H.
Qed.

Lemma raw_depth_nonneg (k : nat) (x : Q) :
  raw_depth_at s k = Fin x -> 0 <= x.
Proof.
  intro E.
  destruct (raw_depth_cases k) as [E'|[v [t [sp [_ [_ [_ [Hv [Ht [Hsp E']]]]]]]]]];
    rewrite E' in E; [discriminate|].
  inversion E; subst.
  apply Qdiv_nonneg; [apply Qdiv_nonneg|];
    unfold min_time, min_spread; lra.
Qed.

(** The raw depth of a row vanishes or is positive together with the
    volume of its window. *)
Lemma raw_depth_volume (k : nat) (x : Q) :
  raw_depth_at s k = Fin x ->
  (k < length s)%nat /\
  (x == 0 -> Qsum (map qty_cr (window 10 k s)) == 0) /\
  (0 < x -> 0 < Qsum (map qty_cr (window 10 k s))).
Proof.
  intro E.
  destruct (raw_depth_cases k) as [E'|[v [t [sp [Ev [_ [_ [Hv [Ht [Hsp E']]]]]]]]]];
    rewrite E' in E; [discriminate|].
  inversion E; subst. clear E.
  destruct (rolling_volume_value k v Ev) as [Hk [Hval _]].
  rewrite <- Hval.
  assert (Ha : 0 < t + min_time) by (unfold min_time; lra).
  assert (Hb : 0 < sp + min_spread) by (unfold min_spread; lra).
  split; [exact Hk|]. split; intro H.
  - apply Qdiv_eq0 in H; [|exact Hb]. apply Qdiv_eq0 in H; [|exact Ha]. exact H.
  - destruct (Qlt_le_dec 0 v) as [L|G]; [exact L|].
    assert (v == 0) by lra.
    assert (v / (t + min_time) / (sp + min_spread) == 0).
    { rewrite H0. unfold Qdiv. ring. }
    lra.
Qed.

(** *** The [vwap] cell *)

Lemma vwap_nth (k : nat) :
  (k < length s)%nat ->
  nth k (col_vwap s) NaN =
  fdiv (Fin (Qsum (map (fun t => price t * qty_cr t) (window 10 k s))))
       (Fin (Qsum (map qty_cr (window 10 k s)))).
Proof.
  intro Hk. unfold col_vwap. rewrite nth_map_seq by exact Hk.
  unfold rolling_sum.
  rewrite !rolling_nth_present.
  - rewrite window_col_qty, window_col_price_qty. reflexivity.
  - rewrite col_qty_length. exact Hk.
  - rewrite window_col_qty, length_map. apply window_nonempty; [lia | exact Hk].
  - rewrite col_price_qty_length. exact Hk.
  - rewrite window_col_price_qty, length_map.
    apply window_nonempty; [lia | exact Hk].
Qed.

Lemma vwap_nan (k : nat) :
  (k < length s)%nat ->
  Qsum (map qty_cr (window 10 k s)) == 0 ->
  nth k (col_vwap s) NaN = NaN.
Proof.
  intros Hk H0. rewrite vwap_nth by exact Hk.
  apply fdiv_zero_zero; [|exact H0].
  apply Qsum_all_zero. intros x Hx.
  apply in_map_iff in Hx. destruct Hx as [t [<- Ht]].
  assert (qty_cr t == 0).
  { apply (Qsum_zero_all (map qty_cr (window 10 k s))).
    - apply window_qty_nonneg.
    - exact H0.
    - apply in_map. exact Ht. }
  rewrite H. ring.
Qed.

Lemma vwap_fin (k : nat) :
  (k < length s)%nat ->
  0 < Qsum (map qty_cr (window 10 k s)) ->
  isna (nth k (col_vwap s) NaN) = false.
Proof.
  intros Hk H0. rewrite vwap_nth by exact Hk.
  rewrite fdiv_pos by exact H0. reflexivity.
Qed.

Lemma depth_score_nth (k : nat) :
  (k < length s)%nat ->
  depth_score (row_at i s k) =
  if fltb (Fin 0) (series_max (raw_depth s))
  then fmul (fdiv (raw_depth_at s k) (series_max (raw_depth s))) (Fin 100)
  else raw_depth_at s k.
Proof.
  intro Hk. unfold row_at, col_depth_score. simpl.
  rewrite normalize_nth, raw_depth_nth by exact Hk. reflexivity.
Qed.

(** Every row that survives [dropna()] carries a rescaled score: its raw
    depth divided by the positive maximum of the group, times 100. *)
Lemma surviving_row_scaled (k : nat) :
  (k < length s)%nat -> has_na (row_at i s k) = false ->
  exists x m,
    raw_depth_at s k = Fin x /\
    series_max (raw_depth s) = Fin m /\
    0 < m /\ 0 <= x /\ x <= m /\
    depth_score (row_at i s k) = Fin (x / m * 100).
Proof.
  intros Hk Hna.
  unfold has_na in Hna. rewrite !orb_false_iff in Hna.
  destruct Hna as [[[[Hd _] _] Hv] _].
  rewrite depth_score_nth in Hd by exact Hk.
  destruct (raw_depth_at s k) as [| |x|] eqn:Ex.
  - destruct (fltb (Fin 0) (series_max (raw_depth s))); discriminate.
  - exfalso. destruct (raw_depth_cases k) as [E|[? [? [? [_ [_ [_ [_ [_ [_ E]]]]]]]]]];
      congruence.
  - pose proof (raw_depth_nonneg k x Ex) as Hx0.
    destruct (raw_depth_volume k x Ex) as [_ [Hzero _]].
    assert (Hin : In (Fin x) (raw_depth s)).
    { unfold raw_depth. apply in_map_seq. exists k. split; [exact Hk|].
      symmetry; exact Ex. }
    destruct (series_max_spec (raw_depth s) raw_depth_finite_or_nan)
      as [[_ Hall]|[m [Em [_ Hup]]]].
    { specialize (Hall _ Hin). discriminate. }
    pose proof (Hup x Hin) as Hxm.
    destruct (Qlt_le_dec 0 m) as [Hm|Hm].
    + exists x, m. repeat (split; [first [reflexivity | assumption]|]).
      rewrite depth_score_nth, Ex, Em by exact Hk.
      simpl fltb. apply Qltb_lt in Hm. rewrite Hm.
      apply Qltb_lt in Hm. rewrite fdiv_pos by exact Hm. reflexivity.
    + exfalso.
      assert (Hz : x == 0) by lra.
      simpl in Hv. rewrite vwap_nan in Hv; [discriminate | exact Hk|].
      apply Hzero. exact Hz.
  - exfalso. destruct (raw_depth_cases k) as [E|[? [? [? [_ [_ [_ [_ [_ [_ E]]]]]]]]]];
      congruence.
Qed.

(** A row whose raw depth is positive has no null cell. *)
Lemma positive_row_survives (k : nat) (x : Q) :
  raw_depth_at s k = Fin x -> 0 < x ->
  0 < match series_max (raw_depth s) with Fin m => m | _ => 0 end ->
  has_na (row_at i s k) = false.
Proof.
  intros Ex Hx Hmax.
  destruct (raw_depth_volume k x Ex) as [Hk [_ Hpos]].
  specialize (Hpos Hx).
  assert (Hk1 : (1 <= k)%nat).
  { destruct k; [|lia]. exfalso.
    destruct (raw_depth_cases 0) as [E|[v [t [sp [_ [_ [Es _]]]]]]]; [congruence|].
    apply rolling_nth_some in Es. destruct Es as [_ [Hc _]].
    unfold window in Hc. simpl in Hc.
    pose proof (col_spread_nth_0 s) as H0.
    destruct (col_spread_bps s) as [|c col]; simpl in *; [lia|].
    subst c. simpl in Hc. lia. }
  unfold has_na. rewrite !orb_false_iff. repeat split.
  - rewrite depth_score_nth by exact Hk.
    destruct (series_max (raw_depth s)) as [| |m|] eqn:Em; try lra.
    simpl fltb. apply Qltb_lt in Hmax. rewrite Hmax. apply Qltb_lt in Hmax.
    rewrite Ex, fdiv_pos by exact Hmax. reflexivity.
  - simpl. pose proof (col_spread_nth_some s k (conj Hk1 Hk)).
    destruct (nth k (col_spread_bps s) None); [reflexivity | congruence].
  - simpl. pose proof (col_time_nth_some s k (conj Hk1 Hk)).
    destruct (nth k (col_time_since_last s) None); [reflexivity | congruence].
  - simpl. apply vwap_fin; assumption.
  - simpl. unfold col_volume_15min, rolling_sum.
    rewrite rolling_nth_present; [reflexivity | rewrite col_qty_length; exact Hk |].
    rewrite window_col_qty, length_map. apply window_nonempty; [lia | exact Hk].
Qed.

Lemma raw_depth_present (k : nat) :
  (5 <= k < length s)%nat -> exists x, raw_depth_at s k = Fin x.
Proof.
  intro Hk.
  destruct (raw_depth_cases k) as [E|[v [t [sp [_ [_ [_ [_ [_ [_ E]]]]]]]]]];
    [|eexists; exact E].
  exfalso.
  assert (Ev : nth k (rolling_volume s) None <> None).
  { unfold rolling_volume, rolling_sum. rewrite rolling_nth_present; [discriminate| |].
    - rewrite col_qty_length. lia.
    - etransitivity; [|apply window_present_count].
      + lia.
      + intros j Hj. apply col_qty_nth_some. rewrite col_qty_length in Hj. lia.
      + rewrite col_qty_length. exact Hk. }
  assert (Et : nth k (rolling_time s) None <> None).
  { unfold rolling_time, rolling_mean. rewrite rolling_nth_present; [discriminate| |].
    - rewrite col_time_length. lia.
    - etransitivity; [|apply window_present_count].
      + lia.
      + intros j Hj. apply col_time_nth_some. rewrite col_time_length in Hj. lia.
      + rewrite col_time_length. exact Hk. }
  assert (Es : nth k (rolling_spread s) None <> None).
  { unfold rolling_spread, rolling_mean. rewrite rolling_nth_present; [discriminate| |].
    - rewrite col_spread_length. lia.
    - etransitivity; [|apply window_present_count].
      + lia.
      + intros j Hj. apply col_spread_nth_some. rewrite col_spread_length in Hj. lia.
      + rewrite col_spread_length. exact Hk. }
  unfold raw_depth_at in E.
  destruct (nth k (rolling_volume s) None) as [v|] eqn:Ev'; [|congruence].
  destruct (nth k (rolling_time s) None) as [t|] eqn:Et'; [|congruence].
  destruct (nth k (rolling_spread s) None) as [sp|] eqn:Es'; [|congruence].
  pose proof (rolling_time_nonneg k t Et') as Ht.
  pose proof (rolling_spread_nonneg k sp Es') as Hsp.
  simpl of_option in E. simpl option_map in E.
  rewrite fdiv_pos in E by (unfold min_time; lra).
  rewrite fdiv_pos in E by (unfold min_spread; lra).
  discriminate.
Qed.

Lemma in_dropna_frame (r : MetricRecord) :
  In r (dropna (frame_of i s)) <->
  exists k, (k < length s)%nat /\ r = row_at i s k /\ has_na r = false.
Proof.
  unfold dropna, frame_of. rewrite filter_In, in_map_seq, negb_true_iff.
  split.
  - intros [[k [Hk E]] Hna]. eauto.
  - intros [k [Hk [E Hna]]]. eauto.
Qed.

(** With no volume at all, [vwap] is [0/0] in every row and no row
    survives [dropna()]. *)
Lemma no_rows_of_zero_volume :
  (forall t, In t s -> qty_cr t == 0) -> dropna (frame_of i s) = [].
Proof.
  intro Hz.
  destruct (dropna (frame_of i s)) as [|r l] eqn:E; [reflexivity|].
  exfalso.
  assert (Hr : In r (dropna (frame_of i s))) by (rewrite E; left; reflexivity).
  apply in_dropna_frame in Hr. destruct Hr as [k [Hk [-> Hna]]].
  unfold has_na in Hna. rewrite !orb_false_iff in Hna.
  destruct Hna as [[_ Hv] _].
  simpl in Hv. rewrite vwap_nan in Hv; [discriminate | exact Hk |].
  apply Qsum_all_zero. intros x Hx.
  apply in_map_iff in Hx. destruct Hx as [t [<- Ht]].
  apply Hz. eapply in_window. exact Ht.
Qed.

(** Conversely, with at least 6 trades and no surviving row, every
    quantity is zero. *)
Lemma zero_volume_of_no_rows :
  (6 <= length s)%nat -> dropna (frame_of i s) = [] ->
  forall t, In t s -> qty_cr t == 0.
Proof.
  intros Hn Hnil.
  assert (Hdead : forall k, (k < length s)%nat -> has_na (row_at i s k) = true).
  { intros k Hk. destruct (has_na (row_at i s k)) eqn:E; [reflexivity|].
    exfalso.
    assert (In (row_at i s k) (dropna (frame_of i s)))
      by (apply in_dropna_frame; eauto).
    rewrite Hnil in H. contradiction. }
  assert (Hzero : forall k, (5 <= k < length s)%nat ->
                       Qsum (map qty_cr (window 10 k s)) == 0).
  { intros k Hk.
    destruct (raw_depth_present k Hk) as [x Ex].
    pose proof (raw_depth_nonneg k x Ex) as Hx0.
    destruct (raw_depth_volume k x Ex) as [_ [Hz _]].
    apply Hz.
    assert (Hin : In (Fin x) (raw_depth s)).
    { unfold raw_depth. apply in_map_seq. exists k. split; [lia | congruence]. }
    destruct (series_max_spec (raw_depth s) raw_depth_finite_or_nan)
      as [[_ Hall]|[m [Em [Hm Hup]]]].
    { specialize (Hall _ Hin). discriminate. }
    pose proof (Hup x Hin) as Hxm.
    destruct (Qlt_le_dec 0 m) as [Hpos|Hle]; [|lra].
    exfalso.
    unfold raw_depth in Hm. apply in_map_seq in Hm.
    destruct Hm as [j [Hj Ej]]. symmetry in Ej.
    assert (has_na (row_at i s j) = false).
    { apply (positive_row_survives j m Ej Hpos). rewrite Em. exact Hpos. }
    rewrite Hdead in H by exact Hj. discriminate. }
  intros t Ht.
  apply (In_nth _ _ null_trade) in Ht. destruct Ht as [j [Hj <-]].
  set (k := Nat.max j 5).
  apply (Qsum_zero_all (map qty_cr (window 10 k s))).
  - apply window_qty_nonneg.
  - apply Hzero. unfold k. lia.
  - apply in_map. apply nth_in_window; unfold k; lia.
Qed.

(** The four facts about the records of one instrument. *)
Lemma instrument_scores :
  (6 <= length s)%nat ->
  let recs := dropna (frame_of i s) in
  (forall r, In r recs ->
     exists k v t sp x m,
       (k < length s)%nat /\ r = row_at i s k /\
       nth k (rolling_volume s) None = Some v /\
       nth k (rolling_time s) None = Some t /\
       nth k (rolling_spread s) None = Some sp /\
       x = v / (t + min_time) / (sp + min_spread) /\
       raw_depth_at s k = Fin x /\
       series_max (raw_depth s) = Fin m /\
       0 < m /\ 0 <= x /\ x <= m /\
       depth_score r = Fin (x / m * 100)) /\
  (forall r, In r recs ->
     exists d, depth_score r = Fin d /\ 0 <= d /\ d <= 100) /\
  (recs <> [] ->
     exists d, series_max (map depth_score recs) = Fin d /\ d == 100) /\
  (recs = [] <-> forall t, In t s -> qty_cr t == 0).
Proof.
  intros Hn recs.
  assert (Hrecs : forall r, In r recs <->
            exists k, (k < length s)%nat /\ r = row_at i s k /\ has_na r = false)
    by (intro r; apply in_dropna_frame).
  assert (Hnil : recs = [] <-> forall t, In t s -> qty_cr t == 0).
  { split; [apply zero_volume_of_no_rows; exact Hn | apply no_rows_of_zero_volume]. }
  clearbody recs.
  assert (Hscaled : forall r, In r recs ->
            exists x m,
              (exists k, (k < length s)%nat /\ raw_depth_at s k = Fin x) /\
              series_max (raw_depth s) = Fin m /\
              0 < m /\ 0 <= x /\ x <= m /\ depth_score r = Fin (x / m * 100)).
  { intros r Hr. apply Hrecs in Hr.
    destruct Hr as [k [Hk [-> Hna]]].
    destruct (surviving_row_scaled k Hk Hna) as [x [m [Ex [Em [Hm [Hx0 [Hxm Ed]]]]]]].
    exists x, m. split; [exists k; auto|]. auto. }
  assert (Hbound : forall r, In r recs ->
            exists d, depth_score r = Fin d /\ 0 <= d /\ d <= 100).
  { intros r Hr.
    destruct (Hscaled r Hr) as [x [m [_ [_ [Hm [Hx0 [Hxm Ed]]]]]]].
    exists (x / m * 100). split; [exact Ed|].
    apply scaled_bounds; assumption. }
  split; [|split; [exact Hbound|split; [|exact Hnil]]].
  - intros r Hr. apply Hrecs in Hr. destruct Hr as [k [Hk [-> Hna]]].
    destruct (surviving_row_scaled k Hk Hna)
      as [x [m [Ex [Em [Hm [Hx0 [Hxm Ed]]]]]]].
    destruct (raw_depth_cases k)
      as [E|[v [t [sp [Ev [Et [Es [_ [_ [_ E]]]]]]]]]]; [congruence|].
    assert (Hx : x = v / (t + min_time) / (sp + min_spread)) by congruence.
    exists k, v, t, sp, x, m.
    repeat (split; [first [reflexivity | assumption]|]). exact Ed.
  - intro Hne.
    assert (Hr0 : exists r0, In r0 recs)
      by (destruct recs; [congruence | eexists; left; reflexivity]).
    destruct Hr0 as [r0 Hr0].
    destruct (Hscaled r0 Hr0) as [_ [m [_ [Em [Hm _]]]]].
    (* the row of the maximum survives with a score of 100 *)
    destruct (series_max_spec (raw_depth s) raw_depth_finite_or_nan)
      as [[E _]|[m' [Em' [Hin _]]]]; [congruence|].
    assert (m' = m) by congruence. subst m'.
    unfold raw_depth in Hin. apply in_map_seq in Hin.
    destruct Hin as [j [Hj Ej]]. symmetry in Ej.
    assert (Hsurv : has_na (row_at i s j) = false).
    { apply (positive_row_survives j m Ej Hm). rewrite Em. exact Hm. }
    assert (Htop : In (Fin (m / m * 100)) (map depth_score recs)).
    { apply in_map_iff. exists (row_at i s j). split.
      - rewrite depth_score_nth, Ej, Em by exact Hj.
        simpl fltb. pose proof Hm as Hm'. apply Qltb_lt in Hm'. rewrite Hm'.
        rewrite fdiv_pos by exact Hm. reflexivity.
      - apply Hrecs. eauto. }
    assert (Hfon : forall x, In x (map depth_score recs) -> finite_or_nan x).
    { intros x Hx. apply in_map_iff in Hx. destruct Hx as [r [<- Hr]].
      destruct (Hbound r Hr) as [d [-> _]]. right. eexists; reflexivity. }
    destruct (series_max_spec (map depth_score recs) Hfon)
      as [[_ Hall]|[d [Ed [Hd Hup]]]].
    { specialize (Hall _ Htop). discriminate. }
    exists d. split; [exact Ed|].
    pose proof (Hup _ Htop) as Hge.
    rewrite scaled_max in Hge by exact Hm.
    apply in_map_iff in Hd. destruct Hd as [r [Er Hr]].
    destruct (Hbound r Hr) as [d' [Ed' [_ Hle]]].
    assert (d' = d) by congruence. subst d'.
    lra.
Qed.

End OneInstrument.

(** C1 (amended).  For an instrument with at least 15 trades, all of
    non-negative quantity: every emitted record is the row of some trade
    [k] of the sorted instrument and carries the raw depth of that very
    row, [rolling_volume / (rolling_time + 0.5) / (rolling_spread + 0.5)]
    at [k], divided by the positive maximum raw depth of the instrument and
    multiplied by 100; every emitted depth score lies in [0, 100]; when
    some record is emitted the maximum emitted depth score is exactly 100;
    and no record at all is emitted exactly when every quantity is zero. *)
Theorem depth_score_normalised (trades : list TradeEvent) (i : string) :
  let g := isin_trades trades i in
  let s := sort_values_trade_ts g in
  let recs := engine_emitted_for trades i in
  (15 <= length g)%nat ->
  (forall t, In t g -> 0 <= qty_cr t) ->
  (forall r, In r recs ->
     exists k v t sp x m,
       (k < length s)%nat /\ r = row_at i s k /\
       nth k (rolling_volume s) None = Some v /\
       nth k (rolling_time s) None = Some t /\
       nth k (rolling_spread s) None = Some sp /\
       x = v / (t + min_time) / (sp + min_spread) /\
       raw_depth_at s k = Fin x /\
       series_max (raw_depth s) = Fin m /\
       0 < m /\ 0 <= x /\ x <= m /\
       depth_score r = Fin (x / m * 100)) /\
  (forall r, In r recs ->
     exists d, depth_score r = Fin d /\ 0 <= d /\ d <= 100) /\
  (recs <> [] ->
     exists d, series_max (map depth_score recs) = Fin d /\ d == 100) /\
  (recs = [] <-> forall t, In t g -> qty_cr t == 0).
Proof.
  intros g s recs Hlen Hqty.
  assert (Hin : In i (map isin trades)).
  { destruct g as [|t g'] eqn:Eg; [simpl in Hlen; lia|].
    assert (Ht : In t (isin_trades trades i)) by (fold g; rewrite Eg; left; reflexivity).
    pose proof (isin_trades_isin _ _ _ Ht) as Ei.
    unfold isin_trades in Ht. apply filter_In in Ht.
    apply in_map_iff. exists t. tauto. }
  assert (Erecs : recs = dropna (frame_of i s)).
  { unfold recs. rewrite engine_emitted_for_eq by exact Hin.
    rewrite frames_at_engine.
    replace (5 <? length (isin_trades trades i))%nat with true
      by (symmetry; apply Nat.ltb_lt; fold g; lia).
    simpl. rewrite app_nil_r. reflexivity. }
  rewrite Erecs.
  assert (Hsorted : Sorted (fun a b => (trade_ts a <=? trade_ts b)%Z = true) s).
  { apply sort_by_sorted. apply trade_ts_leb_total. }
  assert (Hq : forall t, In t s -> 0 <= qty_cr t).
  { intros t Ht. apply Hqty. apply sort_values_in. exact Ht. }
  assert (Hn : (6 <= length s)%nat).
  { unfold s. rewrite sort_values_length. lia. }
  destruct (instrument_scores s i Hsorted Hq Hn) as [H1 [H2 [H3 H4]]].
  split; [exact H1|split; [exact H2|split; [exact H3|]]].
  rewrite H4. split; intros H t Ht; apply H.
  - apply sort_values_in. exact Ht.
  - apply sort_values_in. exact Ht.
Qed.

End DepthFacts.

(** ** The six-trade scenario *)

Module ScenarioFacts.

Import Metrics LoopFacts EngineFacts DepthFacts Samples.

Lemma six_sorted x r mat t0 b sl :
  sort_values_trade_ts (six_trades x r mat t0 b sl) = six_trades x r mat t0 b sl.
Proof.
  apply sort_by_id. unfold six_trades; simpl.
  repeat (constructor; try (simpl; apply Z.leb_le; unfold minute, ns_per_second; lia)).
Qed.

Lemma six_time x r mat t0 b sl :
  col_time_since_last (six_trades x r mat t0 b sl) =
  None :: repeat (Some (minutes_of_ns minute)) 5.
Proof.
  unfold col_time_since_last, six_trades.
  cbn [map diff diff_from option_map trade_ts repeat].
  replace (t0 + 1 * minute - (t0 + 0 * minute))%Z with minute by lia.
  replace (t0 + 2 * minute - (t0 + 1 * minute))%Z with minute by lia.
  replace (t0 + 3 * minute - (t0 + 2 * minute))%Z with minute by lia.
  replace (t0 + 4 * minute - (t0 + 3 * minute))%Z with minute by lia.
  replace (t0 + 5 * minute - (t0 + 4 * minute))%Z with minute by lia.
  reflexivity.
Qed.

Lemma six_rows x r mat t0 b sl k :
  (k < 5)%nat -> has_na (row_at x (six_trades x r mat t0 b sl) k) = true.
Proof.
  intro H. unfold has_na, row_at. cbn [depth_score spread time_since_last vwap volume_15min].
  unfold col_depth_score, raw_depth, raw_depth_at, rolling_time.
  rewrite six_time.
  do 5 (destruct k as [|k]; [vm_compute; reflexivity|]). lia.
Qed.

Lemma six_row5 x r mat t0 b sl :
  let rec := row_at x (six_trades x r mat t0 b sl) 5 in
  has_na rec = false /\
  (exists d, depth_score rec = Fin d /\ d == 100) /\
  (exists sp, spread rec = Some sp /\ sp == 0).
Proof.
  intro rec. unfold rec, has_na, row_at.
  cbn [depth_score spread time_since_last vwap volume_15min].
  unfold col_depth_score, raw_depth, raw_depth_at, rolling_time.
  rewrite six_time.
  split; [vm_compute; reflexivity|]. split.
  - eexists. split; [vm_compute; reflexivity|]. vm_compute. reflexivity.
  - eexists. split; [vm_compute; reflexivity|]. vm_compute. reflexivity.
Qed.

Lemma six_depth_nan x r mat t0 b sl k :
  (k < 5)%nat -> depth_score (row_at x (six_trades x r mat t0 b sl) k) = NaN.
Proof.
  intro H. unfold row_at. cbn [depth_score].
  unfold col_depth_score, raw_depth, raw_depth_at, rolling_time.
  rewrite six_time.
  do 5 (destruct k as [|k]; [vm_compute; reflexivity|]). lia.
Qed.

(** C5.  Six trades of one instrument, one minute apart, at the constant
    price 100.0 and the constant quantity 1,000,000: exactly one record is
    emitted for the instrument, the one of the sixth trade, with a depth
    score of 100 and a spread of 0; the rows of the first five trades have
    no depth score, hence a null cell, and are dropped. *)
Theorem six_trades_one_record (trades : list TradeEvent)
        (x r : string) (mat t0 : Z) (b sl : string) :
  isin_trades trades x = six_trades x r mat t0 b sl ->
  let s := sort_values_trade_ts (isin_trades trades x) in
  (exists rec,
     engine_emitted_for trades x = [rec] /\
     rec = row_at x s 5 /\
     m_isin rec = x /\
     m_trade_ts rec = (t0 + 5 * minute)%Z /\
     (exists d, depth_score rec = Fin d /\ d == 100) /\
     (exists sp, spread rec = Some sp /\ sp == 0)) /\
  (forall k, (k < 5)%nat ->
     depth_score (row_at x s k) = NaN /\ has_na (row_at x s k) = true).
Proof.
  intros Hg s.
  assert (Es : s = six_trades x r mat t0 b sl)
    by (unfold s; rewrite Hg; apply six_sorted).
  rewrite Es. clear s Es.
  assert (Hin : In x (map isin trades)).
  { assert (Ht : In (nth 0 (six_trades x r mat t0 b sl) null_trade)
                    (isin_trades trades x)) by (rewrite Hg; left; reflexivity).
    pose proof (isin_trades_isin _ _ _ Ht) as Ei.
    unfold isin_trades in Ht. apply filter_In in Ht.
    apply in_map_iff. eexists. split; [exact Ei | tauto]. }
  destruct (six_row5 x r mat t0 b sl) as [Hna [Hd Hs]].
  split.
  - exists (row_at x (six_trades x r mat t0 b sl) 5).
    split; [|split; [reflexivity|split; [reflexivity|split; [reflexivity|split; assumption]]]].
    rewrite engine_emitted_for_eq by exact Hin.
    rewrite frames_at_engine, Hg, six_sorted.
    change (5 <? length (six_trades x r mat t0 b sl))%nat with true.
    cbn [concat app]. rewrite app_nil_r.
    unfold dropna, frame_of.
    change (seq 0 (length (six_trades x r mat t0 b sl))) with [0;1;2;3;4;5]%nat.
    cbn [map filter].
    rewrite !six_rows by lia. rewrite Hna. reflexivity.
  - intros k Hk. split; [apply six_depth_nan | apply six_rows]; exact Hk.
Qed.

End ScenarioFacts.

(** ** The metrics batch on the sample inputs *)

Module MetricsExamples.

Import Metrics LoopFacts EngineFacts DepthFacts ScenarioFacts Samples.

(** Fifteen trades with positive quantities: the hypotheses of the
    normalisation theorem hold and the maximum emitted score is 100. *)
Lemma depth_score_normalised_witness :
  (15 <= length (isin_trades fifteen_trades "X"))%nat /\
  (forall t, In t (isin_trades fifteen_trades "X") -> 0 <= qty_cr t) /\
  exists d,
    series_max (map depth_score (engine_emitted_for fifteen_trades "X")) = Fin d /\
    d == 100.
Proof.
  assert (H1 : (15 <= length (isin_trades fifteen_trades "X"))%nat)
    by (vm_compute; lia).
  assert (H2 : forall t, In t (isin_trades fifteen_trades "X") -> 0 <= qty_cr t).
  { intros t Ht. vm_compute in Ht.
    repeat (destruct Ht as [<-|Ht]; [vm_compute; discriminate|]).
    contradiction. }
  destruct (depth_score_normalised fifteen_trades "X" H1 H2) as [_ [_ [H3 _]]].
  split; [exact H1|split; [exact H2|]].
  apply H3. vm_compute. discriminate.
Defined.

(** Fifteen trades of quantity zero: nothing is emitted for the
    instrument, so the emitted scores have no maximum; it is neither 100
    nor 0. *)
Lemma zero_volume_counterexample :
  (15 <= length (isin_trades zero_volume_trades "X"))%nat /\
  (forall t, In t (isin_trades zero_volume_trades "X") -> 0 <= qty_cr t) /\
  engine_emitted_for zero_volume_trades "X" = [] /\
  series_max (map depth_score (engine_emitted_for zero_volume_trades "X")) = NaN /\
  ~ (exists d,
       series_max (map depth_score (engine_emitted_for zero_volume_trades "X"))
       = Fin d /\ (d == 100 \/ d == 0)).
Proof.
  split; [vm_compute; lia|]. split.
  { intros t Ht. vm_compute in Ht.
    repeat (destruct Ht as [<-|Ht]; [vm_compute; discriminate|]).
    contradiction. }
  split; [vm_compute; reflexivity|]. split; [vm_compute; reflexivity|].
  intros [d [E _]]. vm_compute in E. discriminate.
Qed.

(** Three trades of "Y" next to six of "X": "Y" is skipped with a warning. *)
Lemma short_instrument_skipped_witness :
  In "Y"%string (map isin mixed_trades) /\
  engine_emitted_for mixed_trades "Y" = [] /\
  In (LogWarning "Y" 3) (engine_log mixed_trades).
Proof.
  assert (Hin : In "Y"%string (map isin mixed_trades))
    by (vm_compute; tauto).
  destruct (short_instrument_skipped mixed_trades "Y" Hin) as [Hshort _].
  assert (Hlen : (length (isin_trades mixed_trades "Y") < 6)%nat)
    by (vm_compute; lia).
  destruct (Hshort Hlen) as [H1 [_ H3]].
  split; [exact Hin|split; [exact H1 | exact H3]].
Defined.

(** The scenario on a batch that holds the six trades only. *)
Lemma six_trades_one_record_witness :
  isin_trades (six_trades "X" "AAA" 0 0 "CP1" "CP26") "X" =
  six_trades "X" "AAA" 0 0 "CP1" "CP26" /\
  length (engine_emitted_for (six_trades "X" "AAA" 0 0 "CP1" "CP26") "X") = 1%nat.
Proof.
  assert (H : isin_trades (six_trades "X" "AAA" 0 0 "CP1" "CP26") "X" =
              six_trades "X" "AAA" 0 0 "CP1" "CP26") by reflexivity.
  split; [exact H|].
  destruct (six_trades_one_record _ "X"%string "AAA"%string 0%Z 0%Z
                                  "CP1"%string "CP26"%string H)
    as [[rec [E _]] _].
  rewrite E. reflexivity.
Defined.

(** A callee that fails on "Y": the batch goes on and emits what it emits
    without the trades of "Y". *)
Lemma failing_instrument_isolated_witness :
  In "Y"%string (map isin two_instruments) /\
  (5 < length (isin_trades two_instruments "Y"))%nat /\
  faulty_compute (isin_trades two_instruments "Y") = Raise (Exception "boom") /\
  In (LogError "Y" (Exception "boom")) (log (run_loop faulty_compute two_instruments)) /\
  emitted faulty_compute two_instruments =
  emitted faulty_compute
          (filter (fun t => negb (String.eqb (isin t) "Y")) two_instruments).
Proof.
  assert (H1 : In "Y"%string (map isin two_instruments)) by (vm_compute; tauto).
  assert (H2 : (5 < length (isin_trades two_instruments "Y"))%nat)
    by (vm_compute; lia).
  assert (H3 : faulty_compute (isin_trades two_instruments "Y") =
               Raise (Exception "boom")) by reflexivity.
  destruct (failing_instrument_isolated faulty_compute two_instruments "Y"
                                        (Exception "boom") H1 H2 H3)
    as [Hlog [_ [_ [_ Hem]]]].
  split; [exact H1|split; [exact H2|split; [exact H3|split; [exact Hlog|exact Hem]]]].
Defined.

End MetricsExamples.

(** ** Tenor buckets *)

Module TenorFacts.

Import Heatmap SpecWording HeatmapSamples.

Lemma Qle_bool_days (k d : Z) :
  Qle_bool (k # 1) (inject_Z d / 365) = (k * 365 <=? d)%Z.
Proof.
  unfold Qle_bool, Qdiv, Qmult, Qinv, inject_Z. simpl Qnum. simpl Qden.
  f_equal; lia.
Qed.

Lemma Qltb_days (k d : Z) :
  Qltb (inject_Z d / 365) (k # 1) = (d <? k * 365)%Z.
Proof.
  unfold Qltb. rewrite Qle_bool_days, Z.ltb_antisym. reflexivity.
Qed.

(** [pd.cut] with the bins of [render], read on whole days. *)
Lemma cut_days (d : Z) :
  cut bins labels (inject_Z d / 365) =
  if (d <? 0)%Z then None
  else if (d <? 365)%Z then Some "0-1y"%string
  else if (d <? 1095)%Z then Some "1-3y"%string
  else if (d <? 1825)%Z then Some "3-5y"%string
  else if (d <? 3650)%Z then Some "5-10y"%string
  else if (d <? 36500)%Z then Some "10y+"%string
  else None.
Proof.
  unfold bins, labels, cut.
  rewrite !Qle_bool_days, !Qltb_days.
  repeat match goal with
         | |- context [(?a <=? ?b)%Z] => destruct (Z.leb_spec a b)
         | |- context [(?a <? ?b)%Z] => destruct (Z.ltb_spec a b)
         end; simpl; try reflexivity; try lia.
Qed.

Lemma opt_eqb_eq (o : option string) (x : string) :
  opt_eqb o x = true <-> o = Some x.
Proof.
  destruct o as [y|]; simpl.
  - rewrite String.eqb_eq. split; congruence.
  - split; discriminate.
Qed.

Lemma in_members (latest : list Row) (rk bk : string) (x : Row) :
  In x (members latest rk bk) <->
  In x latest /\ rating x = Some rk /\ tenor_bucket x = Some bk.
Proof.
  unfold members. rewrite filter_In, andb_true_iff, !opt_eqb_eq. tauto.
Qed.

Lemma assign_tenor_bucket (r : Row) :
  tenor_bucket (assign_tenor r) =
  match maturity_date r with
  | Some mat =>
      cut bins labels (inject_Z (tenor_days mat (trade_ts (metric r))) / 365)
  | None => None
  end.
Proof.
  unfold assign_tenor. cbn [tenor_bucket].
  destruct (maturity_date r); reflexivity.
Qed.

(** C3 (amended).  Every record gets its tenor bucket from the whole days
    between its own timestamp and the maturity date, by the five ranges
    [0,365), [365,1095), [1095,1825), [1825,3650), [3650,36500); a record
    with a tenor outside [0,36500) days, with no maturity date or with no
    rating belongs to no cell. *)
Theorem tenor_bucket_ranges (r : Row) :
  let b := tenor_bucket (assign_tenor r) in
  match maturity_date r with
  | None => b = None
  | Some mat =>
      let d := tenor_days mat (trade_ts (metric r)) in
      (b = Some "0-1y"%string <-> (0 <= d < 365)%Z) /\
      (b = Some "1-3y"%string <-> (365 <= d < 1095)%Z) /\
      (b = Some "3-5y"%string <-> (1095 <= d < 1825)%Z) /\
      (b = Some "5-10y"%string <-> (1825 <= d < 3650)%Z) /\
      (b = Some "10y+"%string <-> (3650 <= d < 36500)%Z) /\
      (b = None <-> (d < 0 \/ 36500 <= d)%Z)
  end /\
  (forall latest rk bk x,
      In x (members latest rk bk) ->
      rating x = Some rk /\ tenor_bucket x = Some bk) /\
  (forall latest rk bk,
      n_trades (aggregate_cell latest rk bk) = length (members latest rk bk)).
Proof.
  intro b. split; [|split].
  - unfold b. rewrite assign_tenor_bucket.
    destruct (maturity_date r) as [mat|]; [|reflexivity].
    cbv zeta. rewrite cut_days.
    generalize (tenor_days mat (trade_ts (metric r))). intro d.
    repeat match goal with
           | |- context [(?a <? ?c)%Z] => destruct (Z.ltb_spec a c)
           end;
      repeat split; intros; try discriminate; try lia; try reflexivity.
  - intros latest rk bk x Hx. apply in_members in Hx. tauto.
  - reflexivity.
Qed.

(** A tenor of exactly 365 days is bucketed "1-3y" by the code, while the
    ranges of the specification leave it out; a tenor of 36500 days is left
    out by the code, while the specification puts it in "10y+". *)
Lemma tenor_partition_counterexample :
  tenor_days (365 * ns_per_day) 0 = 365%Z /\
  tenor_bucket (assign_tenor (row_with_tenor 365)) = Some "1-3y"%string /\
  spec_tenor_bucket 365 = None /\
  members [assign_tenor (row_with_tenor 365)] "AAA" "1-3y" =
    [assign_tenor (row_with_tenor 365)] /\
  tenor_bucket (assign_tenor (row_with_tenor 36500)) = None /\
  spec_tenor_bucket 36500 = Some "10y+"%string.
Proof.
  repeat split; vm_compute; reflexivity.
Qed.

End TenorFacts.

(** ** The latest record of every instrument *)

Module LatestFacts.

Import Heatmap SpecWording.

Lemma in_combine_seq {A : Type} (l : list A) (a j : nat) (r : A) :
  In (j, r) (combine (seq a (length l)) l) <->
  (a <= j)%nat /\ nth_error l (j - a) = Some r.
Proof.
  revert a. induction l as [|x l IH]; intro a; simpl.
  - split; [intros [] | intros [_ H]]. destruct (j - a)%nat; discriminate.
  - rewrite IH. split.
    + intros [E|[Hle Hn]].
      * inversion E; subst. split; [lia|]. rewrite Nat.sub_diag. reflexivity.
      * split; [lia|]. replace (j - a)%nat with (S (j - S a)) by lia. exact Hn.
    + intros [Hle Hn]. destruct (Nat.eq_dec a j) as [->|N].
      * left. rewrite Nat.sub_diag in Hn. simpl in Hn. congruence.
      * right. split; [lia|].
        replace (j - a)%nat with (S (j - S a)) in Hn by lia. exact Hn.
Qed.

Lemma in_indexed {A : Type} (l : list A) (j : nat) (r : A) :
  In (j, r) (indexed l) <-> nth_error l j = Some r.
Proof.
  unfold indexed. rewrite in_combine_seq, Nat.sub_0_r.
  split; [tauto | intro; split; [lia | assumption]].
Qed.

Lemma combine_seq_sorted {A : Type} (l : list A) (a : nat) :
  StronglySorted (fun x y : nat * A => (fst x < fst y)%nat)
                 (combine (seq a (length l)) l).
Proof.
  revert a. induction l as [|x l IH]; intro a; simpl.
  - constructor.
  - constructor; [apply IH|].
    apply Forall_forall. intros [j r] H. apply in_combine_seq in H. simpl. lia.
Qed.

Lemma StronglySorted_filter {A : Type} (R : A -> A -> Prop) (f : A -> bool)
      (l : list A) :
  StronglySorted R l -> StronglySorted R (filter f l).
Proof.
  induction 1 as [|a l Hs IH Hall]; simpl; [constructor|].
  destruct (f a); [|exact IH].
  constructor; [exact IH|].
  rewrite Forall_forall in *. intros x Hx. apply filter_In in Hx.
  apply Hall. tauto.
Qed.

Lemma StronglySorted_map {A B : Type} (R : A -> A -> Prop) (S : B -> B -> Prop)
      (f : A -> B) (l : list A) :
  (forall x y, R x y -> S (f x) (f y)) ->
  StronglySorted R l -> StronglySorted S (map f l).
Proof.
  intro Hf. induction 1 as [|a l Hs IH Hall]; simpl; constructor; [exact IH|].
  rewrite Forall_forall in *. intros y Hy.
  apply in_map_iff in Hy. destruct Hy as [x [<- Hx]]. apply Hf, Hall, Hx.
Qed.

Lemma StronglySorted_split {A : Type} (R : A -> A -> Prop) (pre post : list A)
      (x : A) :
  StronglySorted R (pre ++ x :: post) ->
  (forall y, In y pre -> R y x) /\ (forall y, In y post -> R x y).
Proof.
  induction pre as [|a pre IH]; simpl; intro H; inversion H as [|? ? Hs Hall]; subst.
  - split; [intros ? [] | apply Forall_forall; exact Hall].
  - destruct (IH Hs) as [H1 H2]. split; [|exact H2].
    intros y [<-|Hy]; [|apply H1; exact Hy].
    rewrite Forall_forall in Hall. apply Hall. apply in_or_app. right. left. reflexivity.
Qed.

(** [idxmax] returns the label of the first cell that holds the maximum:
    the cells before it are smaller, the cells after it are not greater. *)
Lemma idxmax_from_spec (l : list (nat * Z)) :
  forall best mid,
    (forall x, In x mid -> (snd x <= snd best)%Z) ->
    exists pre t post,
      (best :: mid) ++ l = pre ++ (idxmax_from best l, t) :: post /\
      (forall x, In x pre -> (snd x < t)%Z) /\
      (forall x, In x post -> (snd x <= t)%Z).
Proof.
  induction l as [|x l IH]; intros best mid Hmid; simpl.
  - exists [], (snd best), mid. rewrite app_nil_r. destruct best as [i t]. simpl.
    split; [reflexivity|]. split; [intros ? [] | exact Hmid].
  - destruct (snd best <? snd x)%Z eqn:E.
    + apply Z.ltb_lt in E.
      destruct (IH x [] (fun y (H : In y []) => match H with end))
        as [pre [t [post [Eq [Hpre Hpost]]]]].
      simpl in Eq.
      assert (Hx : (snd x <= t)%Z).
      { assert (In x (pre ++ (idxmax_from x l, t) :: post))
          by (rewrite <- Eq; left; reflexivity).
        apply in_app_or in H. destruct H as [H|[H|H]].
        - apply Hpre in H. lia.
        - rewrite <- H. simpl. lia.
        - apply Hpost in H. exact H. }
      exists ((best :: mid) ++ pre), t, post. split; [|split].
      * rewrite <- app_assoc. rewrite <- Eq. reflexivity.
      * intros y Hy. apply in_app_or in Hy. destruct Hy as [[<-|Hy]|Hy].
        -- lia.
        -- apply Hmid in Hy. lia.
        -- apply Hpre. exact Hy.
      * exact Hpost.
    + apply Z.ltb_ge in E.
      destruct (IH best (mid ++ [x])) as [pre [t [post [Eq [Hpre Hpost]]]]].
      { intros y Hy. apply in_app_or in Hy. destruct Hy as [Hy|[<-|[]]].
        - apply Hmid. exact Hy.
        - exact E. }
      exists pre, t, post. split; [|split; assumption].
      rewrite <- Eq. simpl. rewrite <- app_assoc. reflexivity.
Qed.

Lemma in_group_ts (metrics : list Row) (k : string) (j : nat) (t : Z) :
  In (j, t) (group_ts metrics k) <->
  exists r, nth_error metrics j = Some r /\ isin_of r = k /\
            t = trade_ts (metric r).
Proof.
  unfold group_ts. rewrite in_map_iff. split.
  - intros [[j' r] [E H]]. simpl in E. inversion E; subst.
    apply filter_In in H. destruct H as [H1 H2]. simpl in H2.
    apply in_indexed in H1. apply String.eqb_eq in H2.
    exists r. auto.
  - intros [r [Hn [Hk ->]]]. exists (j, r). split; [reflexivity|].
    apply filter_In. split; [apply in_indexed; exact Hn|].
    simpl. apply String.eqb_eq. exact Hk.
Qed.

Lemma group_ts_sorted (metrics : list Row) (k : string) :
  StronglySorted (fun x y : nat * Z => (fst x < fst y)%nat) (group_ts metrics k).
Proof.
  unfold group_ts.
  apply (StronglySorted_map (fun x y : nat * Row => (fst x < fst y)%nat)).
  - intros x y H. exact H.
  - apply StronglySorted_filter. apply combine_seq_sorted.
Qed.

(** The row kept for an instrument: it is a row of that instrument, no
    row of the instrument is later, and among the rows with its timestamp
    it comes first. *)
Lemma idxmax_group (metrics : list Row) (k : string) :
  In k (map isin_of metrics) ->
  exists i r,
    idxmax (group_ts metrics k) = Some i /\
    nth_error metrics i = Some r /\
    isin_of r = k /\
    forall j r', nth_error metrics j = Some r' -> isin_of r' = k ->
                 (trade_ts (metric r') <= trade_ts (metric r))%Z /\
                 (trade_ts (metric r') = trade_ts (metric r) -> (i <= j)%nat).
Proof.
  intro Hk. apply in_map_iff in Hk. destruct Hk as [r0 [E0 H0]].
  apply In_nth_error in H0. destruct H0 as [j0 H0].
  assert (Hin0 : In (j0, trade_ts (metric r0)) (group_ts metrics k))
    by (apply in_group_ts; eauto).
  pose proof (group_ts_sorted metrics k) as Hs.
  destruct (group_ts metrics k) as [|best l] eqn:Eg; [contradiction|].
  destruct (idxmax_from_spec l best [] (fun y (H : In y []) => match H with end))
    as [pre [t [post [Eq [Hpre Hpost]]]]].
  simpl in Eq. rewrite Eq in Hs.
  destruct (StronglySorted_split _ _ _ _ Hs) as [Hlt Hgt].
  assert (Hin : In (idxmax_from best l, t) (group_ts metrics k)).
  { rewrite Eg, Eq. apply in_or_app. right. left. reflexivity. }
  apply in_group_ts in Hin. destruct Hin as [r [Hn [Hr ->]]].
  exists (idxmax_from best l), r. split; [reflexivity|].
  split; [exact Hn|split; [exact Hr|]].
  intros j r' Hj Hr'.
  assert (Hin' : In (j, trade_ts (metric r')) (group_ts metrics k))
    by (apply in_group_ts; eauto).
  rewrite Eg, Eq in Hin'. apply in_app_or in Hin'.
  destruct Hin' as [H|[H|H]].
  - apply Hpre in H. simpl in H. lia.
  - inversion H. split; lia.
  - pose proof (Hpost _ H) as H1. pose proof (Hgt _ H) as H2. simpl in *. lia.
Qed.

Lemma string_leb_iff (a b : string) :
  String.leb a b = true <-> a = b \/ String_as_OT.lt a b.
Proof.
  unfold String.leb.
  destruct (String.compare a b) eqn:E.
  - apply String_as_OT.cmp_eq in E. tauto.
  - apply String_as_OT.cmp_lt in E. tauto.
  - split; [discriminate|]. intros [H|H].
    + apply String_as_OT.cmp_eq in H. unfold String_as_OT.cmp in H. congruence.
    + apply String_as_OT.cmp_lt in H. unfold String_as_OT.cmp in H. congruence.
Qed.

Lemma string_leb_trans (a b c : string) :
  String.leb a b = true -> String.leb b c = true -> String.leb a c = true.
Proof.
  rewrite !string_leb_iff. intros [->|H1] [->|H2]; auto.
  right. eapply String_as_OT.lt_trans; eassumption.
Qed.

Lemma sort_by_strongly_sorted {A : Type} (leb : A -> A -> bool) (l : list A) :
  (forall x y, leb x y = true \/ leb y x = true) ->
  (forall x y z, leb x y = true -> leb y z = true -> leb x z = true) ->
  StronglySorted (fun a b => leb a b = true) (sort_by leb l).
Proof.
  intros Htot Htr. apply Sorted_StronglySorted.
  - intros x y z. apply Htr.
  - apply sort_by_sorted. exact Htot.
Qed.

Lemma isin_keys_in (metrics : list Row) (k : string) :
  In k (isin_keys metrics) <-> In k (map isin_of metrics).
Proof.
  unfold isin_keys. rewrite sort_by_in, unique_in. reflexivity.
Qed.

Lemma isin_keys_NoDup (metrics : list Row) : NoDup (isin_keys metrics).
Proof.
  unfold isin_keys.
  eapply Permutation_NoDup; [apply sort_by_perm | apply unique_NoDup].
Qed.

Lemma map_flat_map_singletons {A B : Type} (f : A -> list B) (g : B -> A)
      (ks : list A) :
  (forall k, In k ks -> exists r, f k = [r] /\ g r = k) ->
  map g (flat_map f ks) = ks.
Proof.
  induction ks as [|k ks IH]; intro H; simpl; [reflexivity|].
  destruct (H k (or_introl eq_refl)) as [r [E1 E2]].
  rewrite E1. simpl. rewrite E2, IH; [reflexivity|].
  intros k' Hk'. apply H. right. exact Hk'.
Qed.

Lemma latest_of_key (metrics : list Row) (k : string) :
  In k (map isin_of metrics) ->
  exists i r,
    latest_of metrics k = [r] /\
    nth_error metrics i = Some r /\
    isin_of r = k /\
    forall j r', nth_error metrics j = Some r' -> isin_of r' = k ->
                 (trade_ts (metric r') <= trade_ts (metric r))%Z /\
                 (trade_ts (metric r') = trade_ts (metric r) -> (i <= j)%nat).
Proof.
  intro Hk. destruct (idxmax_group metrics k Hk) as [i [r [E1 [E2 [E3 H]]]]].
  exists i, r. unfold latest_of. rewrite E1, E2. auto.
Qed.

Lemma latest_metrics_keys (metrics : list Row) :
  map isin_of (latest_metrics metrics) = isin_keys metrics.
Proof.
  apply (map_flat_map_singletons (latest_of metrics) isin_of).
  intros k Hk. apply isin_keys_in in Hk.
  destruct (latest_of_key metrics k Hk) as [i [r [E [_ [Er _]]]]].
  exists r. auto.
Qed.

(** C10.  The latest-per-instrument selection keeps exactly one record
    per distinct instrument of the input, in the order of the sorted ids:
    none is dropped, none is duplicated.  The record kept is a row of the
    input, no row of its instrument has a later timestamp, and among the
    rows of the instrument with that timestamp it is the first. *)
Theorem latest_one_per_instrument (metrics : list Row) :
  let latest := latest_metrics metrics in
  map isin_of latest = isin_keys metrics /\
  NoDup (map isin_of latest) /\
  (forall i, In i (map isin_of latest) <-> In i (map isin_of metrics)) /\
  length latest = length (unique (map isin_of metrics)) /\
  (forall r, In r latest ->
     exists k, nth_error metrics k = Some r /\
       forall j r', nth_error metrics j = Some r' -> isin_of r' = isin_of r ->
         (trade_ts (metric r') <= trade_ts (metric r))%Z /\
         (trade_ts (metric r') = trade_ts (metric r) -> (k <= j)%nat)).
Proof.
  intro latest. pose proof (latest_metrics_keys metrics) as Hk. fold latest in Hk.
  split; [exact Hk|]. split; [|split; [|split]].
  - rewrite Hk. apply isin_keys_NoDup.
  - intro i. rewrite Hk. apply isin_keys_in.
  - rewrite <- (length_map isin_of latest), Hk. unfold isin_keys.
    apply sort_by_length.
  - intros r Hr. unfold latest in Hr.
    change (In r (flat_map (latest_of metrics) (isin_keys metrics))) in Hr.
    apply in_flat_map in Hr. destruct Hr as [k [Hkk Hr]].
    apply isin_keys_in in Hkk.
    destruct (latest_of_key metrics k Hkk) as [i [r0 [E [Hn [Er H]]]]].
    rewrite E in Hr. destruct Hr as [<-|[]].
    exists i. split; [exact Hn|]. rewrite Er. exact H.
Qed.

End LatestFacts.

(** ** The cells of the grid *)

Module CellFacts.

Import Heatmap SpecWording HeatmapSamples TenorFacts LatestFacts.

Lemma StronglySorted_map_inv {A B : Type} (S : B -> B -> Prop) (f : A -> B)
      (l : list A) :
  StronglySorted S (map f l) ->
  StronglySorted (fun a b => S (f a) (f b)) l.
Proof.
  induction l as [|a l IH]; simpl; intro H; [constructor|].
  inversion H as [|? ? Hs Hall]; subst.
  constructor; [apply IH; exact Hs|].
  rewrite Forall_forall in *. intros x Hx. apply Hall. apply in_map. exact Hx.
Qed.

Lemma NoDup_map_injective {A B : Type} (f : A -> B) (l : list A) (x y : A) :
  NoDup (map f l) -> In x l -> In y l -> f x = f y -> x = y.
Proof.
  induction l as [|a l IH]; simpl; intros Hnd Hx Hy E; [contradiction|].
  inversion Hnd as [|? ? Hn Hd]; subst.
  destruct Hx as [->|Hx], Hy as [->|Hy].
  - reflexivity.
  - exfalso. apply Hn. rewrite E. apply in_map. exact Hy.
  - exfalso. apply Hn. rewrite <- E. apply in_map. exact Hx.
  - apply IH; assumption.
Qed.

(** The latest frame is ordered by instrument id. *)
Lemma latest_sorted_by_isin (metrics : list Row) :
  StronglySorted (fun a b => String.leb (isin_of a) (isin_of b) = true)
                 (latest_metrics metrics).
Proof.
  apply (StronglySorted_map_inv (fun a b => String.leb a b = true) isin_of).
  rewrite latest_metrics_keys. unfold isin_keys.
  apply sort_by_strongly_sorted; [apply String.leb_total | apply string_leb_trans].
Qed.

Lemma in_build_grid (latest : list Row) (c : GridCell) :
  In c (build_grid latest) <->
  exists rk bk, In rk (rating_keys latest) /\ In bk labels /\
                c = aggregate_cell latest rk bk.
Proof.
  unfold build_grid. rewrite in_flat_map. split.
  - intros [rk [Hr Hc]]. apply in_map_iff in Hc. destruct Hc as [bk [<- Hb]].
    eauto.
  - intros [rk [bk [Hr [Hb ->]]]]. exists rk. split; [exact Hr|].
    apply in_map. exact Hb.
Qed.

(** C7 (amended).  The vwap of a grid cell is the vwap of the last of its
    contributing latest records in the order of the latest frame, which is
    ordered by instrument id: it is the vwap of the contributing instrument
    with the greatest id, whatever its timestamp; a cell without
    contributor has no vwap. *)
Theorem cell_vwap_last_by_isin (metrics : list Row) (c : GridCell) :
  let latest := latest_metrics metrics in
  let ms := members latest (g_rating c) (g_tenor_bucket c) in
  In c (build_grid latest) ->
  (ms = [] -> g_vwap c = None) /\
  (ms <> [] ->
   exists x,
     In x ms /\
     g_vwap c = Some (vwap (metric x)) /\
     (forall y, In y ms -> String.leb (isin_of y) (isin_of x) = true) /\
     (forall y, In y ms -> isin_of y = isin_of x -> y = x)).
Proof.
  intros latest ms Hc.
  apply in_build_grid in Hc. destruct Hc as [rk [bk [_ [_ ->]]]].
  unfold ms. simpl g_rating. simpl g_tenor_bucket. simpl g_vwap.
  clear ms. set (ms := members latest rk bk).
  assert (Hs : StronglySorted
                 (fun a b => String.leb (isin_of a) (isin_of b) = true) ms).
  { unfold ms, members. apply StronglySorted_filter. apply latest_sorted_by_isin. }
  assert (Hsub : forall y, In y ms -> In y latest).
  { intros y Hy. apply in_members in Hy. tauto. }
  split.
  - intros ->. reflexivity.
  - intro Hne.
    destruct (rev ms) as [|x rest] eqn:Er.
    { exfalso. apply Hne. rewrite <- (rev_involutive ms), Er. reflexivity. }
    assert (Ems : ms = rev rest ++ [x]).
    { rewrite <- (rev_involutive ms), Er. reflexivity. }
    exists x.
    assert (Hx : In x ms) by (rewrite Ems; apply in_or_app; right; left; reflexivity).
    split; [exact Hx|]. split; [reflexivity|]. split.
    + intros y Hy. rewrite Ems in Hs, Hy.
      destruct (StronglySorted_split _ _ _ _ Hs) as [Hlt _].
      apply in_app_or in Hy. destruct Hy as [Hy|[<-|[]]].
      * apply Hlt. exact Hy.
      * destruct (String.leb_total (isin_of x) (isin_of x)); assumption.
    + intros y Hy E.
      apply (NoDup_map_injective isin_of latest); auto.
      destruct (latest_one_per_instrument metrics) as [_ [Hnd _]]. exact Hnd.
Qed.

(** Two instruments in one cell: the cell shows the vwap of "B" (7), the
    greater id, while the most recent record of the cell is that of "A",
    with a vwap of 5. *)
Lemma cell_vwap_counterexample :
  exists res c,
    render two_in_one_cell = Some res /\
    In c (grid res) /\
    g_rating c = "AAA"%string /\ g_tenor_bucket c = "1-3y"%string /\
    g_vwap c = Some 7 /\
    spec_cell_vwap
      (members (latest_metrics (frame res)) (g_rating c) (g_tenor_bucket c))
    = Some 5 /\
    ~ 7 == 5.
Proof.
  eexists. exists (aggregate_cell
                     (latest_metrics (map assign_tenor two_in_one_cell))
                     "AAA" "1-3y").
  split; [vm_compute; reflexivity|].
  split; [vm_compute; tauto|].
  repeat (split; [vm_compute; reflexivity|]).
  intro H. vm_compute in H. discriminate.
Qed.

Lemma cell_vwap_last_by_isin_witness :
  In (aggregate_cell (latest_metrics (map assign_tenor two_in_one_cell))
                     "AAA" "1-3y")
     (build_grid (latest_metrics (map assign_tenor two_in_one_cell))) /\
  exists x,
    In x (members (latest_metrics (map assign_tenor two_in_one_cell))
                  "AAA" "1-3y") /\
    g_vwap (aggregate_cell (latest_metrics (map assign_tenor two_in_one_cell))
                           "AAA" "1-3y") = Some (vwap (metric x)) /\
    forall y,
      In y (members (latest_metrics (map assign_tenor two_in_one_cell))
                    "AAA" "1-3y") ->
      String.leb (isin_of y) (isin_of x) = true.
Proof.
  assert (Hin : In (aggregate_cell
                      (latest_metrics (map assign_tenor two_in_one_cell))
                      "AAA" "1-3y")
                   (build_grid (latest_metrics (map assign_tenor two_in_one_cell))))
    by (vm_compute; tauto).
  split; [exact Hin|].
  destruct (cell_vwap_last_by_isin (map assign_tenor two_in_one_cell) _ Hin)
    as [_ Hlast].
  destruct Hlast as [x [Hx [Hv [Hmax _]]]].
  - vm_compute. discriminate.
  - exists x. split; [exact Hx|]. split; [exact Hv | exact Hmax].
Defined.

End CellFacts.

(** ** Trade counts of the grid *)

Module GridFacts.

Import Heatmap SpecWording HeatmapSamples TenorFacts LatestFacts CellFacts.


















End GridFacts.

(** ** Re-rendering *)

Module RenderFacts.

Import Heatmap SpecWording HeatmapSamples TenorFacts LatestFacts CellFacts GridFacts.








End RenderFacts.

(** ** Thresholds and colours *)

Module ColourFacts.

Import Heatmap SpecWording HeatmapSamples TenorFacts LatestFacts CellFacts GridFacts RenderFacts.

(** *** Order statistics *)





Lemma median_nil : median [] = None.
Proof. reflexivity. Qed.








End ColourFacts.

(** ** The classification of the cells of a rendering *)

Module ClassificationFacts.

Import Heatmap SpecWording HeatmapSamples TenorFacts LatestFacts CellFacts GridFacts RenderFacts ColourFacts.











End ClassificationFacts.
